(** * The Raku external scanner: stacks, memory and the state codec

    A shallow embedding of [src/scanner.c] of tree-sitter-raku.  The C
    code keeps two singly linked stacks (the brace stack and the heredoc
    stack) in heap frames reached through a [scanner_state]; the host
    stores a serialised copy of both stacks between two parses.

    The embedding keeps the heap explicit: a pointer is an optional
    address ([None] is [NULL]), each struct type has its own finite map
    from addresses to frames, and every C function is a program that
    threads the memory and ends in an [outcome]: a normal return, a failed
    [assert], undefined behaviour, or a recursion that has not returned
    within the fuel it was given.

    Platform: LP64, little-endian ([sizeof(size_t) = 8],
    [sizeof(uint32_t) = 4]); [assert] is active (no [NDEBUG]).

    The file has no scan and no deserialize function, and
    [brace_table.h] is not at hand; where the source names a field or a
    variable that does not exist ([new_head->close], [elem] in the second
    loop of the serialiser) the definition says how it is read. *)

From Stdlib Require Import ZArith List Lia.
From stdpp Require Import base gmap list.

Local Open Scope Z_scope.

(** ** Outcomes and programs *)

Inductive outcome (A : Type) : Type :=
| Returns (a : A)      (* the call returns [a] *)
| AssertionFailed      (* an [assert] fails: the process is aborted *)
| Undefined            (* undefined behaviour (bad pointer, missing return value,
                          store outside the buffer) *)
| OutOfFuel.           (* the call has not returned within the given fuel *)

Arguments Returns {A} a.
Arguments AssertionFailed {A}.
Arguments Undefined {A}.
Arguments OutOfFuel {A}.

(** A program over a state [S]: it yields an outcome and the state it
    has reached, also when it does not return. *)
Definition prog (S A : Type) : Type := S -> outcome A * S.

Definition ret {S A : Type} (a : A) : prog S A := fun s => (Returns a, s).

Definition bind {S A B : Type} (c : prog S A) (k : A -> prog S B) : prog S B :=
  fun s =>
    match c s with
    | (Returns a, s') => k a s'
    | (AssertionFailed, s') => (AssertionFailed, s')
    | (Undefined, s') => (Undefined, s')
    | (OutOfFuel, s') => (OutOfFuel, s')
    end.

Definition assert {S : Type} (b : bool) : prog S unit :=
  fun s => if b then (Returns tt, s) else (AssertionFailed, s).

Definition undefined {S A : Type} : prog S A := fun s => (Undefined, s).
Definition out_of_fuel {S A : Type} : prog S A := fun s => (OutOfFuel, s).

Notation "x <~ c ;; k" := (bind c (fun x => k))
  (at level 100, c at next level, right associativity).
Notation "c ;;; k" := (bind c (fun _ => k))
  (at level 100, right associativity).

(** ** Machine integers *)

Definition SIZE_MAX : Z := 2 ^ 64 - 1.
Definition UINT32_MAX : Z := 2 ^ 32 - 1.

Definition to_size_t (z : Z) : Z := z mod 2 ^ 64.
Definition to_uint32 (z : Z) : Z := z mod 2 ^ 32.

Definition is_size_t (z : Z) : Prop := 0 <= z <= SIZE_MAX.
Definition is_uint32 (z : Z) : Prop := 0 <= z <= UINT32_MAX.

(** ** Pointers and frames *)

Abbreviation ptr := (option positive).
Abbreviation NULL := (@None positive).

Definition is_null (p : ptr) : bool :=
  match p with None => true | Some _ => false end.

Definition ptr_eqb (p q : ptr) : bool :=
  match p, q with
  | None, None => true
  | Some a, Some b => Pos.eqb a b
  | _, _ => false
  end.

Module BraceStack.
(** [struct brace_stack] *)
Record brace_stack : Type := Frame {
  depth : Z;            (* size_t *)
  closing_brace : Z;    (* uint32_t *)
  next : ptr
}.
End BraceStack.
Abbreviation brace_stack := BraceStack.brace_stack.

Module HeredocStack.
(** [struct heredoc_stack].  [sentinel] holds the contents of the array
    the C pointer refers to ([[]] for a null pointer); [all_flags] is
    the 32-bit word of the union, whose low bits are the bit-fields. *)
Record heredoc_stack : Type := Frame {
  depth : Z;             (* size_t *)
  sentinel : list Z;     (* const uint32_t* *)
  sentinel_length : Z;   (* size_t *)
  all_flags : Z;         (* uint32_t *)
  next : ptr
}.

(** The bit-fields of the anonymous [flags] struct, in declaration
    order from the least significant bit. *)
Definition may_interp_closure (f : heredoc_stack) : bool := Z.testbit (all_flags f) 0.
Definition may_interp_scalar (f : heredoc_stack) : bool := Z.testbit (all_flags f) 1.
Definition may_interp_array (f : heredoc_stack) : bool := Z.testbit (all_flags f) 2.
Definition may_interp_hash (f : heredoc_stack) : bool := Z.testbit (all_flags f) 3.
Definition may_interp_fun (f : heredoc_stack) : bool := Z.testbit (all_flags f) 4.
Definition may_interp_substr (f : heredoc_stack) : bool := Z.testbit (all_flags f) 5.
End HeredocStack.
Abbreviation heredoc_stack := HeredocStack.heredoc_stack.

(** [struct scanner_state] *)
Record scanner_state : Type := State {
  current_brace : ptr;
  current_heredoc : ptr
}.

(** ** Memory: one typed heap per struct *)

Record memory : Type := Memory {
  braces : gmap positive brace_stack;
  heredocs : gmap positive heredoc_stack;
  states : gmap positive scanner_state
}.

Definition empty_memory : memory := Memory ∅ ∅ ∅.

Definition with_braces (m : memory) (b : gmap positive brace_stack) : memory :=
  Memory b (heredocs m) (states m).
Definition with_heredocs (m : memory) (h : gmap positive heredoc_stack) : memory :=
  Memory (braces m) h (states m).
Definition with_states (m : memory) (s : gmap positive scanner_state) : memory :=
  Memory (braces m) (heredocs m) s.

Definition zero_brace : brace_stack := BraceStack.Frame 0 0 NULL.
Definition zero_heredoc : heredoc_stack := HeredocStack.Frame 0 [] 0 0 NULL.
Definition zero_state : scanner_state := State NULL NULL.

(** [malloc]/[calloc] of one frame, memory being available: a fresh
    address, which now holds a frame.  The frame [malloc] leaves there is
    indeterminate in C; the callers below assign every field before
    reading it, so the zero frame stands for it. *)
Definition calloc_brace : prog memory ptr := fun m =>
  let l := fresh (dom (braces m)) in
  (Returns (Some l), with_braces m (<[l := zero_brace]> (braces m))).
Definition malloc_brace : prog memory ptr := calloc_brace.

Definition calloc_heredoc : prog memory ptr := fun m =>
  let l := fresh (dom (heredocs m)) in
  (Returns (Some l), with_heredocs m (<[l := zero_heredoc]> (heredocs m))).

Definition malloc_state : prog memory ptr := fun m =>
  let l := fresh (dom (states m)) in
  (Returns (Some l), with_states m (<[l := zero_state]> (states m))).

(** Reading [*p]: undefined when [p] is null or not allocated. *)
Definition load_brace (p : ptr) : prog memory brace_stack := fun m =>
  match p with
  | Some l => match braces m !! l with
              | Some f => (Returns f, m)
              | None => (Undefined, m)
              end
  | None => (Undefined, m)
  end.

Definition load_heredoc (p : ptr) : prog memory heredoc_stack := fun m =>
  match p with
  | Some l => match heredocs m !! l with
              | Some f => (Returns f, m)
              | None => (Undefined, m)
              end
  | None => (Undefined, m)
  end.

Definition load_state (p : ptr) : prog memory scanner_state := fun m =>
  match p with
  | Some l => match states m !! l with
              | Some f => (Returns f, m)
              | None => (Undefined, m)
              end
  | None => (Undefined, m)
  end.

(** Writing one field through [p]. *)
Definition update_brace (p : ptr) (g : brace_stack -> brace_stack) : prog memory unit :=
  f <~ load_brace p ;;
  fun m => match p with
           | Some l => (Returns tt, with_braces m (<[l := g f]> (braces m)))
           | None => (Undefined, m)
           end.

Definition update_heredoc (p : ptr) (g : heredoc_stack -> heredoc_stack) : prog memory unit :=
  f <~ load_heredoc p ;;
  fun m => match p with
           | Some l => (Returns tt, with_heredocs m (<[l := g f]> (heredocs m)))
           | None => (Undefined, m)
           end.

Definition update_state (p : ptr) (g : scanner_state -> scanner_state) : prog memory unit :=
  f <~ load_state p ;;
  fun m => match p with
           | Some l => (Returns tt, with_states m (<[l := g f]> (states m)))
           | None => (Undefined, m)
           end.

Definition set_brace_depth (d : Z) (f : brace_stack) : brace_stack :=
  BraceStack.Frame d (BraceStack.closing_brace f) (BraceStack.next f).
Definition set_brace_closing (c : Z) (f : brace_stack) : brace_stack :=
  BraceStack.Frame (BraceStack.depth f) c (BraceStack.next f).
Definition set_brace_next (n : ptr) (f : brace_stack) : brace_stack :=
  BraceStack.Frame (BraceStack.depth f) (BraceStack.closing_brace f) n.

Definition set_heredoc_depth (d : Z) (f : heredoc_stack) : heredoc_stack :=
  HeredocStack.Frame d (HeredocStack.sentinel f) (HeredocStack.sentinel_length f)
                     (HeredocStack.all_flags f) (HeredocStack.next f).
Definition set_heredoc_next (n : ptr) (f : heredoc_stack) : heredoc_stack :=
  HeredocStack.Frame (HeredocStack.depth f) (HeredocStack.sentinel f)
                     (HeredocStack.sentinel_length f) (HeredocStack.all_flags f) n.

Definition set_current_brace (p : ptr) (s : scanner_state) : scanner_state :=
  State p (current_heredoc s).
Definition set_current_heredoc (p : ptr) (s : scanner_state) : scanner_state :=
  State (current_brace s) p.

(** [free(p)]: nothing for a null pointer, undefined for an address that
    is not allocated (a double free). *)
Definition free_brace (p : ptr) : prog memory unit := fun m =>
  match p with
  | None => (Returns tt, m)
  | Some l => match braces m !! l with
              | Some _ => (Returns tt, with_braces m (delete l (braces m)))
              | None => (Undefined, m)
              end
  end.

Definition free_heredoc (p : ptr) : prog memory unit := fun m =>
  match p with
  | None => (Returns tt, m)
  | Some l => match heredocs m !! l with
              | Some _ => (Returns tt, with_heredocs m (delete l (heredocs m)))
              | None => (Undefined, m)
              end
  end.

Definition free_state (p : ptr) : prog memory unit := fun m =>
  match p with
  | None => (Returns tt, m)
  | Some l => match states m !! l with
              | Some _ => (Returns tt, with_states m (delete l (states m)))
              | None => (Undefined, m)
              end
  end.

(** ** The heredoc stack *)

(** [heredoc_stack_free]: the recursive call is on [head] itself. *)
Fixpoint heredoc_stack_free (fuel : nat) (head : ptr) : prog memory unit :=
  match fuel with
  | O => out_of_fuel
  | S fuel' =>
      if is_null head then ret tt
      else
        h <~ load_heredoc head ;;
        assert (negb (ptr_eqb (HeredocStack.next h) head)) ;;;
        heredoc_stack_free fuel' head ;;;
        free_heredoc head
  end.

(** [heredoc_stack_push]: the body is the assertion alone; control then
    reaches the end of a function that has to return a pointer. *)
Definition heredoc_stack_push (head : ptr) (sentinel : list Z) : prog memory ptr :=
  assert (negb (is_null head)) ;;;
  undefined.

Definition heredoc_stack_pop (fuel : nat) (head : ptr) : prog memory ptr :=
  assert (negb (is_null head)) ;;;
  h <~ load_heredoc head ;;
  assert (HeredocStack.depth h >? 0) ;;;
  assert (negb (is_null (HeredocStack.next h))) ;;;
  let next := HeredocStack.next h in
  update_heredoc head (set_heredoc_next NULL) ;;;
  heredoc_stack_free fuel head ;;;
  ret next.

(** ** The brace stack *)

Fixpoint brace_stack_free (fuel : nat) (head : ptr) : prog memory unit :=
  match fuel with
  | O => out_of_fuel
  | S fuel' =>
      if is_null head then ret tt
      else
        h <~ load_brace head ;;
        assert (negb (ptr_eqb (BraceStack.next h) head)) ;;;
        brace_stack_free fuel' (BraceStack.next h) ;;;
        free_brace head
  end.

Section BraceTable.
(** [brace_table.h] is not part of the sources: the table and its bound
    are parameters.  The local [closing_brace] is a [uint32_t]: both
    assignments to it convert to that type.  The source stores it through
    [new_head->close]; the struct's field for it is [closing_brace]. *)
Variable BRACE_TABLE : Z -> Z.
Variable BACE_TABLE_MAX : Z.

Definition brace_stack_push (head : ptr) (brace : Z) : prog memory ptr :=
  assert (negb (is_null head)) ;;;
  let closing_brace := to_uint32 brace in
  let closing_brace :=
    if (brace <? BACE_TABLE_MAX) && negb (BRACE_TABLE brace =? 0)
    then to_uint32 (BRACE_TABLE brace)
    else closing_brace in
  new_head <~ malloc_brace ;;
  h <~ load_brace head ;;
  update_brace new_head (set_brace_depth (to_size_t (BraceStack.depth h + 1))) ;;;
  update_brace new_head (set_brace_closing closing_brace) ;;;
  update_brace new_head (set_brace_next head) ;;;
  ret new_head.
End BraceTable.

Definition brace_stack_pop (fuel : nat) (head : ptr) : prog memory ptr :=
  assert (negb (is_null head)) ;;;
  h <~ load_brace head ;;
  assert (BraceStack.depth h >? 0) ;;;
  assert (negb (is_null (BraceStack.next h))) ;;;
  let next := BraceStack.next h in
  update_brace head (set_brace_next NULL) ;;;
  brace_stack_free fuel head ;;;
  ret next.

(** ** Create and destroy *)

(** The source calls [calloc] with the size alone and then assigns the
    two depths "just to be clear, even though calloc will do this for
    us": both roots are zeroed frames. *)
Definition tree_sitter_raku_external_scanner_create : prog memory ptr :=
  new_state <~ malloc_state ;;
  brace_root <~ calloc_brace ;;
  heredoc_root <~ calloc_heredoc ;;
  update_brace brace_root (set_brace_depth 0) ;;;
  update_heredoc heredoc_root (set_heredoc_depth 0) ;;;
  update_state new_state (set_current_brace brace_root) ;;;
  update_state new_state (set_current_heredoc heredoc_root) ;;;
  ret new_state.

Definition tree_sitter_raku_external_scanner_destroy (fuel : nat) (state : ptr)
  : prog memory unit :=
  assert (negb (is_null state)) ;;;
  s <~ load_state state ;;
  assert (negb (is_null (current_brace s))) ;;;
  assert (negb (is_null (current_heredoc s))) ;;;
  brace_stack_free fuel (current_brace s) ;;;
  heredoc_stack_free fuel (current_heredoc s) ;;;
  free_state state.

(** ** The state codec: serialisation *)

(** The capacity of the host's buffer ([tree_sitter/parser.h]). *)
Definition TREE_SITTER_SERIALIZATION_BUFFER_SIZE : Z := 1024.

Inductive ctype : Type := size_t | uint32_t.

Definition sizeof (t : ctype) : nat :=
  match t with size_t => 8%nat | uint32_t => 4%nat end.

(** The object representation of an integer in [n] bytes, least
    significant byte first; the value is reduced modulo [256 ^ n]. *)
Fixpoint le_bytes (n : nat) (v : Z) : list Z :=
  match n with
  | O => []
  | S n' => v mod 256 :: le_bytes n' (v / 256)
  end.

Fixpoint le_value (bs : list Z) : Z :=
  match bs with
  | [] => 0
  | b :: bs' => b + 256 * le_value bs'
  end.

(** The serialiser's state is the sequence of bytes stored so far from
    [buffer] on, so that [head - buffer] is its length.  [buffer] is the
    host's array of [TREE_SITTER_SERIALIZATION_BUFFER_SIZE] bytes: the
    macro checks nothing, and a store that ends beyond the array is
    undefined. *)
Definition BUF_WRITE (type : ctype) (what : Z) : prog (list Z) unit :=
  fun buf =>
    if Z.of_nat (length buf + sizeof type) <=? TREE_SITTER_SERIALIZATION_BUFFER_SIZE
    then (Returns tt, buf ++ le_bytes (sizeof type) what)
    else (Undefined, buf).

(** [memcpy] of [count] elements out of the array [head]; the array is
    an object in memory, hence [count * sizeof(type)] does not wrap when
    [count] is within it.  The copy is undefined when it reads beyond
    [head] or writes beyond the buffer. *)
Definition BUF_WRITE_ARRAY (type : ctype) (count : Z) (head : list Z)
  : prog (list Z) unit :=
  BUF_WRITE size_t count ;;;
  fun buf =>
    if (0 <=? count) && (count <=? Z.of_nat (length head)) &&
       (Z.of_nat (length buf) + count * Z.of_nat (sizeof type)
        <=? TREE_SITTER_SERIALIZATION_BUFFER_SIZE)
    then (Returns tt,
          buf ++ concat (map (le_bytes (sizeof type)) (take (Z.to_nat count) head)))
    else (Undefined, buf).

(** Reading the memory from within the serialiser. *)
Definition read {A : Type} (m : memory) (c : prog memory A) : prog (list Z) A :=
  fun buf => (fst (c m), buf).

Definition written : prog (list Z) Z :=
  fun buf => (Returns (Z.of_nat (length buf)), buf).

(** The first loop of the serialiser, from [elem] on. *)
Fixpoint write_braces (fuel : nat) (m : memory) (elem : ptr) : prog (list Z) unit :=
  match fuel with
  | O => out_of_fuel
  | S fuel' =>
      e <~ read m (load_brace elem) ;;
      if BraceStack.depth e >? 0 then
        assert (negb (is_null (BraceStack.next e))) ;;;
        BUF_WRITE uint32_t (BraceStack.closing_brace e) ;;;
        write_braces fuel' m (BraceStack.next e)
      else ret tt
  end.

(** The second loop.  Its body names [elem], which is out of scope
    there; the frame in scope that has the fields it reads is the loop
    variable [hd]. *)
Fixpoint write_heredocs (fuel : nat) (m : memory) (hd : ptr) : prog (list Z) unit :=
  match fuel with
  | O => out_of_fuel
  | S fuel' =>
      h <~ read m (load_heredoc hd) ;;
      if HeredocStack.depth h >? 0 then
        assert (negb (is_null (HeredocStack.next h))) ;;;
        BUF_WRITE uint32_t (HeredocStack.all_flags h) ;;;
        BUF_WRITE_ARRAY uint32_t (HeredocStack.sentinel_length h)
                        (HeredocStack.sentinel h) ;;;
        write_heredocs fuel' m (HeredocStack.next h)
      else ret tt
  end.

Definition tree_sitter_raku_external_scanner_serialize
    (fuel : nat) (m : memory) (state : ptr) : prog (list Z) Z :=
  assert (negb (is_null state)) ;;;
  s <~ read m (load_state state) ;;
  assert (negb (is_null (current_brace s))) ;;;
  assert (negb (is_null (current_heredoc s))) ;;;
  b <~ read m (load_brace (current_brace s)) ;;
  BUF_WRITE size_t (BraceStack.depth b) ;;;
  write_braces fuel m (current_brace s) ;;;
  len <~ written ;;
  assert (len <=? TREE_SITTER_SERIALIZATION_BUFFER_SIZE) ;;;
  h <~ read m (load_heredoc (current_heredoc s)) ;;
  BUF_WRITE size_t (HeredocStack.depth h) ;;;
  write_heredocs fuel m (current_heredoc s) ;;;
  len' <~ written ;;
  assert (len' <=? TREE_SITTER_SERIALIZATION_BUFFER_SIZE) ;;;
  ret (to_uint32 len').

(** Serialising into an empty buffer: the outcome and the bytes stored. *)
Definition serialize (fuel : nat) (m : memory) (state : ptr) : outcome Z * list Z :=
  tree_sitter_raku_external_scanner_serialize fuel m state [].

(** ** The reading macros

    The source defines [BUF_READ] and [BUF_READ_ARRAY] and has no
    function that uses them.  The state is the sequence of bytes from
    [ptr] to the end of the object it points into; neither macro knows
    that end, a read beyond it is undefined. *)
Definition BUF_READ (type : ctype) : prog (list Z) Z :=
  fun rest =>
    if (sizeof type <=? length rest)%nat
    then (Returns (le_value (take (sizeof type) rest)), drop (sizeof type) rest)
    else (Undefined, rest).

Fixpoint decode_array (width count : nat) (bytes : list Z) : list Z :=
  match count with
  | O => []
  | S count' => le_value (take width bytes) :: decode_array width count' (drop width bytes)
  end.

(** [BUF_READ_ARRAY] moves [ptr] past the length only. *)
Definition BUF_READ_ARRAY (type : ctype) : prog (list Z) (list Z) :=
  fun rest =>
    if (sizeof size_t <=? length rest)%nat then
      let len := le_value (take (sizeof size_t) rest) in
      let rest' := drop (sizeof size_t) rest in
      if len * Z.of_nat (sizeof type) <=? Z.of_nat (length rest')
      then (Returns (decode_array (sizeof type) (Z.to_nat len) rest'), rest')
      else (Undefined, rest')
    else (Undefined, rest).

(** ** The abstract scanner state and the decoder *)

(** Modelled from the spec: BraceFrame, of the data model of section 3,
    which both the decoder below and the view of the C heap produce.  A
    stack is the list of its frames from the top frame down to the root;
    a frame's parent is the next element of the list. *)
Record BraceFrame : Type := {
  bf_depth : Z;
  bf_closing_delimiter : Z
}.

(** Modelled from the spec: HeredocFrame (section 3); the five
    interpolation flags are kept as the packed flags word of the layout
    (section 4.3). *)
Record HeredocFrame : Type := {
  hf_depth : Z;
  hf_sentinel : list Z;
  hf_interp_flags : Z
}.

(** Modelled from the spec: ScannerState (section 3) owns one stack of
    each kind. *)
Record ScannerState : Type := {
  brace_frames : list BraceFrame;
  heredoc_frames : list HeredocFrame
}.

(** Modelled from the spec: the state after Create (section 6): both
    stacks hold a lone root frame of depth 0 with no delimiter and no
    sentinel.  The source's [tree_sitter_raku_external_scanner_create]
    is embedded above; [create_view] below relates the two. *)
Definition fresh_state : ScannerState :=
  {| brace_frames := [ {| bf_depth := 0; bf_closing_delimiter := 0 |} ];
     heredoc_frames := [ {| hf_depth := 0; hf_sentinel := []; hf_interp_flags := 0 |} ] |}.

(** Modelled from the spec: the result of decoding is a value or the
    error DeserializationCorruption of section 7. *)
Inductive decoded (A : Type) : Type :=
| Decoded (a : A)
| DeserializationCorruption.

Arguments Decoded {A} a.
Arguments DeserializationCorruption {A}.

Definition decoded_bind {A B : Type} (d : decoded A) (k : A -> decoded B) : decoded B :=
  match d with
  | Decoded a => k a
  | DeserializationCorruption => DeserializationCorruption
  end.

Notation "x <<- d ;; k" := (decoded_bind d (fun x => k))
  (at level 100, d at next level, right associativity).

Definition check (b : bool) : decoded unit :=
  if b then Decoded tt else DeserializationCorruption.

(** Modelled from the spec: a read of one integer of [width] bytes that
    is refused when fewer bytes remain (section 4.3: declared counts and
    lengths are validated against the remaining length; section 7:
    DeserializationCorruption).  The source has no checked read. *)
Definition read_value (width : nat) (bytes : list Z) : decoded (Z * list Z) :=
  _ <<- check (width <=? length bytes)%nat ;;
  Decoded (le_value (take width bytes), drop width bytes).

(** Modelled from the spec: a read of [count] integers, refused when the
    declared count does not fit the remaining bytes.  The source has no
    checked read. *)
Definition read_values (width : nat) (count : Z) (bytes : list Z)
  : decoded (list Z * list Z) :=
  _ <<- check ((0 <=? count) && (count * Z.of_nat width <=? Z.of_nat (length bytes))) ;;
  Decoded (decode_array width (Z.to_nat count) bytes,
           drop (Z.to_nat count * width) bytes).

(** Modelled from the spec: the heredoc records of the layout (section
    4.3, item 4): the flags word, then the sentinel's length and that
    many codepoints.  The source has no decoding loop. *)
Fixpoint read_heredocs (count : nat) (bytes : list Z)
  : decoded (list (Z * list Z) * list Z) :=
  match count with
  | O => Decoded ([], bytes)
  | S count' =>
      fr <<- read_value (sizeof uint32_t) bytes ;;
      lr <<- read_value (sizeof size_t) (snd fr) ;;
      sr <<- read_values (sizeof uint32_t) (fst lr) (snd lr) ;;
      tr <<- read_heredocs count' (snd sr) ;;
      Decoded ((fst fr, fst sr) :: fst tr, snd tr)
  end.

(** Modelled from the spec: depths are contiguous from 0 at the root
    (section 3), and the encoder writes the top frame first, so the first
    of [n] decoded records has depth [n] and the last has depth 1. *)
Fixpoint number_frames {A B : Type} (mk : Z -> A -> B) (xs : list A) : list B :=
  match xs with
  | [] => []
  | x :: xs' => mk (Z.of_nat (length xs)) x :: number_frames mk xs'
  end.

(** Modelled from the spec: the layout of section 4.3, read back: brace
    count, closing delimiters, heredoc count, heredoc records, in the
    encoder's order (top frame first), each count and length checked
    against the bytes that remain.  The repository's sources have no
    decoding function. *)
Definition decode_layout (bytes : list Z) : decoded ScannerState :=
  br <<- read_value (sizeof size_t) bytes ;;
  cr <<- read_values (sizeof uint32_t) (fst br) (snd br) ;;
  hr <<- read_value (sizeof size_t) (snd cr) ;;
  _ <<- check ((0 <=? fst hr) &&
               (fst hr * Z.of_nat (sizeof uint32_t + sizeof size_t)
                <=? Z.of_nat (length (snd hr)))) ;;
  fr <<- read_heredocs (Z.to_nat (fst hr)) (snd hr) ;;
  Decoded
    {| brace_frames :=
         number_frames (fun d c => {| bf_depth := d; bf_closing_delimiter := c |})
                       (fst cr)
         ++ brace_frames fresh_state;
       heredoc_frames :=
         number_frames (fun d fs => {| hf_depth := d; hf_sentinel := snd fs;
                                       hf_interp_flags := fst fs |})
                       (fst fr)
         ++ heredoc_frames fresh_state |}.

(** Modelled from the spec: Deserialize (section 6).  A slice of length
    0 gives the state after Create; any other slice is decoded by its
    layout.  The repository's sources have no decoding function. *)
Definition deserialize (bytes : list Z) : decoded ScannerState :=
  match bytes with
  | [] => Decoded fresh_state
  | _ :: _ => decode_layout bytes
  end.

(** ** Stacks in memory *)

(** [chain next heap p fs]: following [next] from [p] visits the frames
    [fs], at the addresses listed with them, and ends at a null
    pointer. *)
Fixpoint chain {F : Type} (next : F -> ptr) (heap : gmap positive F)
    (p : ptr) (fs : list (positive * F)) : Prop :=
  match fs with
  | [] => p = NULL
  | lf :: fs' =>
      p = Some (fst lf) /\ heap !! fst lf = Some (snd lf) /\
      chain next heap (next (snd lf)) fs'
  end.

Definition brace_chain (m : memory) : ptr -> list (positive * brace_stack) -> Prop :=
  chain BraceStack.next (braces m).

Definition heredoc_chain (m : memory) : ptr -> list (positive * heredoc_stack) -> Prop :=
  chain HeredocStack.next (heredocs m).

(** The fields of well-formed frames: the depth of a frame is the number
    of frames beneath it, so the last frame is the root, of depth 0. *)
Fixpoint brace_frames_ok (fs : list (positive * brace_stack)) : Prop :=
  match fs with
  | [] => True
  | lf :: fs' =>
      BraceStack.depth (snd lf) = Z.of_nat (length fs') /\
      is_size_t (BraceStack.depth (snd lf)) /\
      is_uint32 (BraceStack.closing_brace (snd lf)) /\
      brace_frames_ok fs'
  end.

Fixpoint heredoc_frames_ok (fs : list (positive * heredoc_stack)) : Prop :=
  match fs with
  | [] => True
  | lf :: fs' =>
      HeredocStack.depth (snd lf) = Z.of_nat (length fs') /\
      is_size_t (HeredocStack.depth (snd lf)) /\
      is_uint32 (HeredocStack.all_flags (snd lf)) /\
      HeredocStack.sentinel_length (snd lf) = Z.of_nat (length (HeredocStack.sentinel (snd lf))) /\
      is_size_t (HeredocStack.sentinel_length (snd lf)) /\
      Forall is_uint32 (HeredocStack.sentinel (snd lf)) /\
      heredoc_frames_ok fs'
  end.

(** The fields of a heredoc frame fit their encoding. *)
Definition record_ok (f : heredoc_stack) : Prop :=
  is_uint32 (HeredocStack.all_flags f) /\
  HeredocStack.sentinel_length f = Z.of_nat (length (HeredocStack.sentinel f)) /\
  is_size_t (HeredocStack.sentinel_length f) /\
  Forall is_uint32 (HeredocStack.sentinel f).

Definition brace_stack_wf (m : memory) (p : ptr) (fs : list (positive * brace_stack)) : Prop :=
  fs <> [] /\ brace_chain m p fs /\ brace_frames_ok fs.

Definition heredoc_stack_wf (m : memory) (p : ptr) (fs : list (positive * heredoc_stack)) : Prop :=
  fs <> [] /\ heredoc_chain m p fs /\ heredoc_frames_ok fs.

(** The root frames are the zeroed frames that
    [tree_sitter_raku_external_scanner_create] allocates; no function
    writes to them. *)
Definition roots_zero (bfs : list (positive * brace_stack))
    (hfs : list (positive * heredoc_stack)) : Prop :=
  snd <$> last bfs = Some zero_brace /\ snd <$> last hfs = Some zero_heredoc.

Definition scanner_state_wf (m : memory) (state : ptr)
    (bfs : list (positive * brace_stack)) (hfs : list (positive * heredoc_stack)) : Prop :=
  exists l s, state = Some l /\ states m !! l = Some s /\
    brace_stack_wf m (current_brace s) bfs /\
    heredoc_stack_wf m (current_heredoc s) hfs /\
    roots_zero bfs hfs.

(** The view of the C stacks in the data model of the spec. *)
Definition brace_view (fs : list (positive * brace_stack)) : list BraceFrame :=
  map (fun lf => {| bf_depth := BraceStack.depth (snd lf);
                    bf_closing_delimiter := BraceStack.closing_brace (snd lf) |}) fs.

Definition heredoc_view (fs : list (positive * heredoc_stack)) : list HeredocFrame :=
  map (fun lf => {| hf_depth := HeredocStack.depth (snd lf);
                    hf_sentinel := HeredocStack.sentinel (snd lf);
                    hf_interp_flags := HeredocStack.all_flags (snd lf) |}) fs.

Definition state_view (bfs : list (positive * brace_stack))
    (hfs : list (positive * heredoc_stack)) : ScannerState :=
  {| brace_frames := brace_view bfs; heredoc_frames := heredoc_view hfs |}.

(** The frames above the root, top first. *)
Definition non_root {A : Type} (fs : list A) : list A := removelast fs.

(** The layout of the encoding, section by section. *)
Definition brace_section (fs : list (positive * brace_stack)) : list Z :=
  le_bytes (sizeof size_t) (Z.of_nat (length (non_root fs))) ++
  concat (map (fun lf => le_bytes (sizeof uint32_t) (BraceStack.closing_brace (snd lf)))
              (non_root fs)).

Definition heredoc_record (f : heredoc_stack) : list Z :=
  le_bytes (sizeof uint32_t) (HeredocStack.all_flags f) ++
  le_bytes (sizeof size_t) (HeredocStack.sentinel_length f) ++
  concat (map (le_bytes (sizeof uint32_t)) (HeredocStack.sentinel f)).

Definition heredoc_section (fs : list (positive * heredoc_stack)) : list Z :=
  le_bytes (sizeof size_t) (Z.of_nat (length (non_root fs))) ++
  concat (map (fun lf => heredoc_record (snd lf)) (non_root fs)).

Definition encoded_size (bfs : list (positive * brace_stack))
    (hfs : list (positive * heredoc_stack)) : Z :=
  Z.of_nat (length (brace_section bfs ++ heredoc_section hfs)).

(** A part of the serialiser that stores [bytes] one store after the
    other.  Started within the buffer it returns with [bytes] appended
    when they fit; when they do not, it runs into a store that ends
    beyond the buffer, with some of [bytes], from the front, stored
    before it. *)
Definition stores (c : prog (list Z) unit) (bytes : list Z) : Prop :=
  forall buf,
    Z.of_nat (length buf) <= TREE_SITTER_SERIALIZATION_BUFFER_SIZE ->
    (Z.of_nat (length buf + length bytes) <= TREE_SITTER_SERIALIZATION_BUFFER_SIZE ->
     c buf = (Returns tt, buf ++ bytes)) /\
    (TREE_SITTER_SERIALIZATION_BUFFER_SIZE < Z.of_nat (length buf + length bytes) ->
     exists stored rest,
       c buf = (Undefined, stored) /\ buf ++ bytes = stored ++ rest /\
       Z.of_nat (length stored) <= TREE_SITTER_SERIALIZATION_BUFFER_SIZE).

(** ** Sequences of stack operations *)

Inductive stack_op : Type :=
| Push (brace : Z)
| Pop.

Section Runs.
Variable BRACE_TABLE : Z -> Z.
Variable BACE_TABLE_MAX : Z.

(** The pair table registers a closing character for [c]. *)
Definition registered (c : Z) : Prop := c < BACE_TABLE_MAX /\ BRACE_TABLE c <> 0.

(** A caller applying the operations in turn to the stack it holds. *)
Fixpoint run_brace_ops (fuel : nat) (ops : list stack_op) (head : ptr) : prog memory ptr :=
  match ops with
  | [] => ret head
  | Push c :: ops' =>
      h <~ brace_stack_push BRACE_TABLE BACE_TABLE_MAX head c ;;
      run_brace_ops fuel ops' h
  | Pop :: ops' =>
      h <~ brace_stack_pop fuel head ;;
      run_brace_ops fuel ops' h
  end.

(** The same from a freshly created state. *)
Definition run_from_create (fuel : nat) (ops : list stack_op) : prog memory ptr :=
  state <~ tree_sitter_raku_external_scanner_create ;;
  s <~ load_state state ;;
  run_brace_ops fuel ops (current_brace s).

(** The same, the caller storing the stack it is left with in the
    state: the states a scanner session can reach. *)
Definition run_and_store (fuel : nat) (ops : list stack_op) : prog memory ptr :=
  state <~ tree_sitter_raku_external_scanner_create ;;
  s <~ load_state state ;;
  b <~ run_brace_ops fuel ops (current_brace s) ;;
  update_state state (set_current_brace b) ;;;
  ret state.
End Runs.

Fixpoint pushes (ops : list stack_op) : nat :=
  match ops with
  | [] => O
  | Push _ :: ops' => S (pushes ops')
  | Pop :: ops' => pushes ops'
  end.

Fixpoint pops (ops : list stack_op) : nat :=
  match ops with
  | [] => O
  | Push _ :: ops' => pops ops'
  | Pop :: ops' => S (pops ops')
  end.

(** No operation of the sequence is a pop at depth 0, when the sequence
    starts at depth [d]. *)
Fixpoint never_underflows (d : nat) (ops : list stack_op) : Prop :=
  match ops with
  | [] => True
  | Push _ :: ops' => never_underflows (S d) ops'
  | Pop :: ops' =>
      match d with
      | O => False
      | S d' => never_underflows d' ops'
      end
  end.

(** ** The scenario of section 8 *)

Section Scenario.
Variable BRACE_TABLE : Z -> Z.
Variable BACE_TABLE_MAX : Z.

(** From a fresh state: push ['('] (40), push ['['] (91), pop once; the
    caller stores the stack it is left with in the state. *)
Definition scenario (fuel : nat) : prog memory ptr :=
  state <~ tree_sitter_raku_external_scanner_create ;;
  s <~ load_state state ;;
  b1 <~ brace_stack_push BRACE_TABLE BACE_TABLE_MAX (current_brace s) 40 ;;
  b2 <~ brace_stack_push BRACE_TABLE BACE_TABLE_MAX b1 91 ;;
  b3 <~ brace_stack_pop fuel b2 ;;
  update_state state (set_current_brace b3) ;;;
  ret state.
End Scenario.

(** ** Slices that hold what they declare *)

(** Modelled from the spec: section 4.3 asks that declared counts and
    lengths be consistent with the remaining length.  [n] heredoc
    records are consistent when each has its flags word, its length word
    and as many codepoints as the length word declares. *)
Fixpoint records_consistent (n : nat) (bytes : list Z) : Prop :=
  match n with
  | O => bytes = []
  | S n' =>
      exists fl ln sn tl,
        bytes = fl ++ ln ++ sn ++ tl /\
        length fl = sizeof uint32_t /\ length ln = sizeof size_t /\
        Z.of_nat (length sn) = le_value ln * Z.of_nat (sizeof uint32_t) /\
        records_consistent n' tl
  end.

(** Modelled from the spec: a slice is consistent when it starts with a
    brace count, that many closing delimiters, a heredoc count and that
    many consistent heredoc records. *)
Definition consistent (bytes : list Z) : Prop :=
  exists bc cl hc rc rest,
    bytes = bc ++ cl ++ hc ++ rc ++ rest /\
    length bc = sizeof size_t /\
    Z.of_nat (length cl) = le_value bc * Z.of_nat (sizeof uint32_t) /\
    length hc = sizeof size_t /\ 0 <= le_value hc /\
    records_consistent (Z.to_nat (le_value hc)) rc.

(** ** Example data *)

(** Modelled from the spec: a pair table holding the common bracket
    pairs (section 6); [brace_table.h] is not part of the sources. *)
Definition example_table (c : Z) : Z :=
  if c =? 40 then 41          (* ( ) *)
  else if c =? 60 then 62     (* < > *)
  else if c =? 91 then 93     (* [ ] *)
  else if c =? 123 then 125   (* { } *)
  else 0.

Definition example_table_max : Z := 128.

(** The memory and the state after Create in an empty memory. *)
Definition created_state : ptr :=
  match fst (tree_sitter_raku_external_scanner_create empty_memory) with
  | Returns p => p
  | _ => NULL
  end.

Definition created_memory : memory :=
  snd (tree_sitter_raku_external_scanner_create empty_memory).

(** A state with two open quoting constructs and one pending heredoc
    (sentinel [END], scalar interpolation only). *)
Definition example_brace_frames : list (positive * brace_stack) :=
  [ (3%positive, BraceStack.Frame 2 93 (Some 2%positive));
    (2%positive, BraceStack.Frame 1 41 (Some 1%positive));
    (1%positive, zero_brace) ].

Definition example_heredoc_frames : list (positive * heredoc_stack) :=
  [ (2%positive, HeredocStack.Frame 1 [69; 78; 68] 3 2 (Some 1%positive));
    (1%positive, zero_heredoc) ].

Definition example_memory : memory :=
  Memory (list_to_map example_brace_frames)
         (list_to_map example_heredoc_frames)
         {[ 1%positive := State (Some 3%positive) (Some 2%positive) ]}.

(** The state reached from an empty memory by [n] pushes of ['(']. *)
Definition deep_state (n : nat) : outcome ptr * memory :=
  run_and_store example_table example_table_max 2 (replicate n (Push 40)) empty_memory.

(** ** The brace stack as a list *)

(** Sequences in which every push is closed by a pop of its own. *)
Inductive balanced : list stack_op -> Prop :=
| balanced_nil : balanced []
| balanced_nest c inner rest :
    balanced inner -> balanced rest -> balanced (Push c :: inner ++ Pop :: rest).

Section ListStack.
Variable BRACE_TABLE : Z -> Z.
Variable BACE_TABLE_MAX : Z.

(** The closing brace [brace_stack_push] computes for an opening
    character. *)
Definition closing_for (c : Z) : Z :=
  if (c <? BACE_TABLE_MAX) && negb (BRACE_TABLE c =? 0)
  then to_uint32 (BRACE_TABLE c)
  else to_uint32 c.

(** A list model to compare the heap stack with: the closing braces of
    the frames above the root, top first.  A push puts a closing brace in
    front, a pop removes the first one; [None] when a pop meets the empty
    list. *)
Fixpoint closings_after (ops : list stack_op) (cs : list Z) : option (list Z) :=
  match ops with
  | [] => Some cs
  | Push c :: ops' => closings_after ops' (closing_for c :: cs)
  | Pop :: ops' =>
      match cs with
      | [] => None
      | _ :: cs' => closings_after ops' cs'
      end
  end.
End ListStack.

(** The closing braces of the frames above the root, top first. *)
Definition closings (fs : list (positive * brace_stack)) : list Z :=
  map (fun lf => BraceStack.closing_brace (snd lf)) (non_root fs).

(** Two brace frames that point at each other. *)
Definition cyclic_memory : memory :=
  Memory {[ 1%positive := BraceStack.Frame 1 41 (Some 2%positive);
            2%positive := BraceStack.Frame 2 93 (Some 1%positive) ]} ∅ ∅.

(** The example memory after a second Create: two sessions side by
    side. *)
Definition two_sessions_memory : memory :=
  snd (tree_sitter_raku_external_scanner_create example_memory).

(** * Properties *)

(** ** Programs *)

Lemma bind_returns {S A B : Type} (c : prog S A) (k : A -> prog S B) s a s' :
  c s = (Returns a, s') -> bind c k s = k a s'.
Proof. intros H. unfold bind. rewrite H. reflexivity. Qed.

Lemma bind_assertion_failed {S A B : Type} (c : prog S A) (k : A -> prog S B) s s' :
  c s = (AssertionFailed, s') -> bind c k s = (AssertionFailed, s').
Proof. intros H. unfold bind. rewrite H. reflexivity. Qed.

Lemma bind_undefined {S A B : Type} (c : prog S A) (k : A -> prog S B) s s' :
  c s = (Undefined, s') -> bind c k s = (Undefined, s').
Proof. intros H. unfold bind. rewrite H. reflexivity. Qed.

Lemma bind_out_of_fuel {S A B : Type} (c : prog S A) (k : A -> prog S B) s s' :
  c s = (OutOfFuel, s') -> bind c k s = (OutOfFuel, s').
Proof. intros H. unfold bind. rewrite H. reflexivity. Qed.

Lemma undefined_not_returns {S A : Type} (x : outcome A * S) :
  fst x = Undefined -> ~ (exists a s, x = (Returns a, s)).
Proof. intros H (a & s & ->). discriminate H. Qed.

(** ** Machine integers *)

Lemma to_size_t_small z : is_size_t z -> to_size_t z = z.
Proof. unfold to_size_t, is_size_t, SIZE_MAX. intros H. apply Z.mod_small. lia. Qed.

Lemma to_uint32_small z : is_uint32 z -> to_uint32 z = z.
Proof. unfold to_uint32, is_uint32, UINT32_MAX. intros H. apply Z.mod_small. lia. Qed.

(** ** Memory *)

Lemma fresh_brace_unallocated (m : memory) : braces m !! fresh (dom (braces m)) = None.
Proof. apply not_elem_of_dom, is_fresh. Qed.

Lemma fresh_heredoc_unallocated (m : memory) : heredocs m !! fresh (dom (heredocs m)) = None.
Proof. apply not_elem_of_dom, is_fresh. Qed.

Lemma fresh_state_unallocated (m : memory) : states m !! fresh (dom (states m)) = None.
Proof. apply not_elem_of_dom, is_fresh. Qed.

Lemma load_brace_allocated (m : memory) l f :
  braces m !! l = Some f -> load_brace (Some l) m = (Returns f, m).
Proof. intros H. unfold load_brace. rewrite H. reflexivity. Qed.

Lemma load_heredoc_allocated (m : memory) l f :
  heredocs m !! l = Some f -> load_heredoc (Some l) m = (Returns f, m).
Proof. intros H. unfold load_heredoc. rewrite H. reflexivity. Qed.

Lemma load_state_allocated (m : memory) l s :
  states m !! l = Some s -> load_state (Some l) m = (Returns s, m).
Proof. intros H. unfold load_state. rewrite H. reflexivity. Qed.

Lemma update_brace_allocated (m : memory) l f g :
  braces m !! l = Some f ->
  update_brace (Some l) g m = (Returns tt, with_braces m (<[l := g f]> (braces m))).
Proof.
  intros H. unfold update_brace.
  rewrite (bind_returns _ _ _ _ _ (load_brace_allocated _ _ _ H)). reflexivity.
Qed.

Lemma update_heredoc_allocated (m : memory) l f g :
  heredocs m !! l = Some f ->
  update_heredoc (Some l) g m = (Returns tt, with_heredocs m (<[l := g f]> (heredocs m))).
Proof.
  intros H. unfold update_heredoc.
  rewrite (bind_returns _ _ _ _ _ (load_heredoc_allocated _ _ _ H)). reflexivity.
Qed.

Lemma update_state_allocated (m : memory) l s g :
  states m !! l = Some s ->
  update_state (Some l) g m = (Returns tt, with_states m (<[l := g s]> (states m))).
Proof.
  intros H. unfold update_state.
  rewrite (bind_returns _ _ _ _ _ (load_state_allocated _ _ _ H)). reflexivity.
Qed.

Lemma free_brace_allocated (m : memory) l f :
  braces m !! l = Some f ->
  free_brace (Some l) m = (Returns tt, with_braces m (delete l (braces m))).
Proof. intros H. unfold free_brace. rewrite H. reflexivity. Qed.

(** ** Chains of frames *)

Section Chains.
Context {F : Type} (next : F -> ptr).
Implicit Types (heap : gmap positive F) (fs : list (positive * F)).

Lemma chain_allocated heap p fs l :
  chain next heap p fs -> l ∈ fs.*1 -> is_Some (heap !! l).
Proof.
  revert p. induction fs as [|[l' f] fs IH]; intros p Hc Hl; cbn in *.
  - inversion Hl.
  - destruct Hc as (_ & Hf & Hc). apply elem_of_cons in Hl as [-> | Hl]; eauto.
Qed.

Lemma chain_functional heap p fs1 fs2 :
  chain next heap p fs1 -> chain next heap p fs2 -> fs1 = fs2.
Proof.
  revert p fs2. induction fs1 as [|[l1 f1] fs1 IH]; intros p [|[l2 f2] fs2]; cbn.
  - reflexivity.
  - intros -> (? & _); discriminate.
  - intros (-> & _) ?; discriminate.
  - intros (-> & H1 & C1) (E & H2 & C2).
    injection E as <-. rewrite H1 in H2. injection H2 as <-.
    f_equal. eapply IH; eassumption.
Qed.

Lemma chain_suffix heap p fs1 fs2 :
  chain next heap p (fs1 ++ fs2) -> exists q, chain next heap q fs2.
Proof.
  revert p. induction fs1 as [|lf fs1 IH]; intros p; cbn.
  - eauto.
  - intros (_ & _ & Hc). eauto.
Qed.

Lemma chain_NoDup heap p fs : chain next heap p fs -> NoDup fs.*1.
Proof.
  revert p. induction fs as [|[l f] fs IH]; intros p Hc; cbn.
  - constructor.
  - pose proof Hc as (-> & Hf & Hc'). constructor; [| eauto].
    intros Hin. apply list_elem_of_fmap in Hin as ([l' f'] & Hl & Hin). cbn in Hl; subst l'.
    apply list_elem_of_split in Hin as (pre & post & ->).
    destruct (chain_suffix _ _ _ _ Hc') as (q & Hq).
    assert (E : (l, f) :: pre ++ (l, f') :: post = (l, f') :: post).
    { pose proof Hq as (-> & _). eapply chain_functional; [exact Hc | exact Hq]. }
    apply (f_equal length) in E. cbn in E. rewrite length_app in E. cbn in E. lia.
Qed.

Lemma chain_insert_unallocated heap p fs l f :
  heap !! l = None -> chain next heap p fs -> chain next (<[l := f]> heap) p fs.
Proof.
  intros Hl. revert p. induction fs as [|[l' f'] fs IH]; intros p; cbn; [done|].
  intros (-> & Hf & Hc). split; [done|]. split; [| eauto].
  rewrite lookup_insert_ne; [done | congruence].
Qed.

Lemma chain_delete_outside heap p fs l :
  l ∉ fs.*1 -> chain next heap p fs -> chain next (delete l heap) p fs.
Proof.
  revert p. induction fs as [|[l' f'] fs IH]; intros p Hl; cbn; [done|].
  intros (-> & Hf & Hc). cbn in Hl. apply not_elem_of_cons in Hl as [Hne Hl].
  split; [done|]. split; [| eauto].
  rewrite lookup_delete_ne; [done | congruence].
Qed.
End Chains.

(** ** The brace stack *)

Lemma to_size_t_is_size_t z : is_size_t (to_size_t z).
Proof.
  unfold is_size_t, to_size_t, SIZE_MAX.
  pose proof (Z.mod_pos_bound z (2 ^ 64)). lia.
Qed.

Lemma to_uint32_is_uint32 z : is_uint32 (to_uint32 z).
Proof.
  unfold is_uint32, to_uint32, UINT32_MAX.
  pose proof (Z.mod_pos_bound z (2 ^ 32)). lia.
Qed.

Section BracePush.
Variable BRACE_TABLE : Z -> Z.
Variable BACE_TABLE_MAX : Z.

(** What [brace_stack_push] stores as the closing brace. *)
Lemma brace_stack_push_returns (m : memory) l0 f0 brace :
  braces m !! l0 = Some f0 ->
  brace_stack_push BRACE_TABLE BACE_TABLE_MAX (Some l0) brace m =
    (Returns (Some (fresh (dom (braces m)))),
     with_braces m
       (<[fresh (dom (braces m)) :=
            BraceStack.Frame
              (to_size_t (BraceStack.depth f0 + 1))
              (if (brace <? BACE_TABLE_MAX) && negb (BRACE_TABLE brace =? 0)
               then to_uint32 (BRACE_TABLE brace) else to_uint32 brace)
              (Some l0)]> (braces m))).
Proof.
  intros Hl0.
  pose proof (fresh_brace_unallocated m) as Hf.
  set (l := fresh (dom (braces m))) in *.
  assert (Hne : l <> l0) by congruence.
  unfold brace_stack_push.
  rewrite (bind_returns _ _ _ tt m) by reflexivity.
  rewrite (bind_returns _ _ m (Some l) (with_braces m (<[l := zero_brace]> (braces m))))
    by reflexivity.
  erewrite bind_returns
    by (apply load_brace_allocated; cbn; rewrite lookup_insert_ne by done; exact Hl0).
  do 3 (erewrite bind_returns by (apply update_brace_allocated; cbn; apply lookup_insert_eq)).
  unfold ret, with_braces; cbn. rewrite !insert_insert_eq. reflexivity.
Qed.

(** Pushing onto a well-formed stack: the new frame, the memory after
    the call, and the stack it leaves. *)
Lemma brace_stack_push_frame (m : memory) head fs brace :
  brace_stack_wf m head fs ->
  Z.of_nat (length fs) <= SIZE_MAX ->
  exists l,
    let f := BraceStack.Frame
               (Z.of_nat (length fs))
               (if (brace <? BACE_TABLE_MAX) && negb (BRACE_TABLE brace =? 0)
                then to_uint32 (BRACE_TABLE brace) else to_uint32 brace)
               head in
    braces m !! l = None /\
    brace_stack_push BRACE_TABLE BACE_TABLE_MAX head brace m =
      (Returns (Some l), with_braces m (<[l := f]> (braces m))) /\
    brace_stack_wf (with_braces m (<[l := f]> (braces m))) (Some l) ((l, f) :: fs).
Proof.
  intros (Hne & Hc & Hok) Hlen.
  destruct fs as [|[l0 f0] fs]; [done|]. cbn in Hc, Hok.
  destruct Hc as (-> & Hl0 & Hc). destruct Hok as (Hd & Hds & Hcl & Hok).
  exists (fresh (dom (braces m))). cbn zeta.
  pose proof (fresh_brace_unallocated m) as Hfresh.
  split; [exact Hfresh|]. split.
  - rewrite (brace_stack_push_returns m l0 f0 brace Hl0).
    rewrite Hd, to_size_t_small; [do 4 f_equal; cbn [length]; lia|].
    unfold is_size_t. cbn [length] in Hlen. lia.
  - split; [done|]. split.
    + cbn. split; [done|]. split; [apply lookup_insert_eq|].
      split; [done|]. split.
      * rewrite lookup_insert_ne; [done | congruence].
      * apply chain_insert_unallocated; done.
    + cbn -[length]. split; [done|]. split; [unfold is_size_t; lia|]. split.
      * destruct (_ && _); apply to_uint32_is_uint32.
      * cbn. done.
Qed.

Lemma brace_stack_push_wf (m : memory) head fs brace :
  brace_stack_wf m head fs ->
  Z.of_nat (length fs) <= SIZE_MAX ->
  exists l f m',
    brace_stack_push BRACE_TABLE BACE_TABLE_MAX head brace m = (Returns (Some l), m') /\
    heredocs m' = heredocs m /\ states m' = states m /\
    brace_stack_wf m' (Some l) ((l, f) :: fs).
Proof.
  intros Hwf Hlen.
  destruct (brace_stack_push_frame m head fs brace Hwf Hlen) as (l & _ & Hpush & Hwf').
  eexists l, _, _. split; [exact Hpush|]. split; [reflexivity|]. split; [reflexivity|].
  exact Hwf'.
Qed.
End BracePush.

Lemma brace_stack_free_null fuel (m : memory) :
  brace_stack_free (S fuel) NULL m = (Returns tt, m).
Proof. reflexivity. Qed.

(** Freeing a frame whose [next] is null frees that frame alone. *)
Lemma brace_stack_free_single fuel (m : memory) l f :
  braces m !! l = Some f -> BraceStack.next f = NULL ->
  brace_stack_free (S (S fuel)) (Some l) m =
    (Returns tt, with_braces m (delete l (braces m))).
Proof.
  intros Hl Hn. cbn [brace_stack_free is_null].
  rewrite (bind_returns _ _ _ _ _ (load_brace_allocated _ _ _ Hl)).
  rewrite Hn. cbn [ptr_eqb negb].
  rewrite (bind_returns _ _ _ tt m) by reflexivity.
  rewrite (bind_returns _ _ _ tt m) by reflexivity.
  apply (free_brace_allocated _ _ _ Hl).
Qed.

Lemma brace_stack_pop_root fuel (m : memory) l f :
  braces m !! l = Some f -> BraceStack.depth f = 0 ->
  brace_stack_pop fuel (Some l) m = (AssertionFailed, m).
Proof.
  intros Hl Hd. unfold brace_stack_pop.
  rewrite (bind_returns _ _ _ tt m) by reflexivity.
  rewrite (bind_returns _ _ _ _ _ (load_brace_allocated _ _ _ Hl)).
  rewrite Hd. reflexivity.
Qed.

Lemma brace_stack_pop_returns fuel (m : memory) l f l' :
  braces m !! l = Some f -> 0 < BraceStack.depth f -> BraceStack.next f = Some l' ->
  brace_stack_pop (S (S fuel)) (Some l) m =
    (Returns (Some l'), with_braces m (delete l (braces m))).
Proof.
  intros Hl Hd Hn. unfold brace_stack_pop.
  rewrite (bind_returns _ _ _ tt m) by reflexivity.
  rewrite (bind_returns _ _ _ _ _ (load_brace_allocated _ _ _ Hl)).
  rewrite (bind_returns _ _ _ tt m)
    by (unfold assert; destruct (Z.gtb_spec (BraceStack.depth f) 0); [done | lia]).
  rewrite Hn. rewrite (bind_returns _ _ _ tt m) by reflexivity.
  rewrite (bind_returns _ _ _ _ _ (update_brace_allocated _ _ _ _ Hl)).
  erewrite bind_returns
    by (apply brace_stack_free_single with (f := set_brace_next NULL f);
        [cbn; apply lookup_insert_eq | reflexivity]).
  unfold ret, with_braces; cbn. rewrite delete_insert_eq. reflexivity.
Qed.

(** In a well-formed stack the frames above the root have a positive
    depth and a parent. *)
Lemma brace_frames_ok_depth fs i lf :
  brace_frames_ok fs -> fs !! i = Some lf ->
  BraceStack.depth (snd lf) = Z.of_nat (length fs) - 1 - Z.of_nat i.
Proof.
  revert i. induction fs as [|lf' fs IH]; intros i Hok Hi; [done|].
  cbn in Hok. destruct Hok as (Hd & _ & _ & Hok).
  destruct i as [|i]; cbn in Hi.
  - injection Hi as <-. cbn [length]. lia.
  - rewrite (IH i Hok Hi). cbn [length]. lia.
Qed.

Lemma brace_stack_pop_wf fuel (m : memory) head lf fs :
  brace_stack_wf m head (lf :: fs) -> fs <> [] ->
  brace_stack_pop (S (S fuel)) head m =
    (Returns (BraceStack.next (snd lf)), with_braces m (delete (fst lf) (braces m))) /\
  brace_stack_wf (with_braces m (delete (fst lf) (braces m))) (BraceStack.next (snd lf)) fs.
Proof.
  intros (_ & Hc & Hok) Hne. destruct lf as [l f].
  pose proof (chain_NoDup _ _ _ _ Hc) as Hnd.
  cbn in Hc, Hok, Hnd. destruct Hc as (-> & Hl & Hc). destruct Hok as (Hd & _ & _ & Hok).
  apply NoDup_cons in Hnd as [Hnotin _].
  destruct fs as [|[l' f'] fs]; [done|].
  pose proof Hc as (Hn & _). cbn in Hn. cbn [fst snd]. split.
  - rewrite Hn. apply brace_stack_pop_returns with (f := f); [done | | done].
    rewrite Hd. cbn [length]. lia.
  - split; [done|]. split; [| done].
    apply chain_delete_outside; done.
Qed.

Lemma brace_stack_pop_root_wf fuel (m : memory) head lf :
  brace_stack_wf m head [lf] ->
  brace_stack_pop fuel head m = (AssertionFailed, m).
Proof.
  intros (_ & Hc & Hok). cbn in Hc, Hok.
  destruct Hc as (-> & Hl & _). destruct Hok as (Hd & _).
  eapply brace_stack_pop_root; eassumption.
Qed.

(** ** The heredoc stack *)

Lemma heredoc_stack_pop_root fuel (m : memory) l f :
  heredocs m !! l = Some f -> HeredocStack.depth f = 0 ->
  heredoc_stack_pop fuel (Some l) m = (AssertionFailed, m).
Proof.
  intros Hl Hd. unfold heredoc_stack_pop.
  rewrite (bind_returns _ _ _ tt m) by reflexivity.
  rewrite (bind_returns _ _ _ _ _ (load_heredoc_allocated _ _ _ Hl)).
  rewrite Hd. reflexivity.
Qed.

(** [heredoc_stack_free] on an allocated frame that is not its own
    [next] exhausts any fuel: each call repeats itself. *)
Lemma heredoc_stack_free_diverges fuel (m : memory) l f :
  heredocs m !! l = Some f -> HeredocStack.next f <> Some l ->
  heredoc_stack_free fuel (Some l) m = (OutOfFuel, m).
Proof.
  intros Hl Hn. induction fuel as [|fuel IH]; [reflexivity|].
  cbn [heredoc_stack_free is_null].
  rewrite (bind_returns _ _ _ _ _ (load_heredoc_allocated _ _ _ Hl)).
  rewrite (bind_returns _ _ _ tt m).
  - apply bind_out_of_fuel. exact IH.
  - unfold assert. destruct (HeredocStack.next f) as [l'|]; cbn; [|done].
    destruct (Pos.eqb_spec l' l); [congruence | done].
Qed.

(** ** Create *)

Lemma create_returns (m : memory) :
  tree_sitter_raku_external_scanner_create m =
    (Returns (Some (fresh (dom (states m)))),
     Memory (<[fresh (dom (braces m)) := zero_brace]> (braces m))
            (<[fresh (dom (heredocs m)) := zero_heredoc]> (heredocs m))
            (<[fresh (dom (states m)) :=
                 State (Some (fresh (dom (braces m)))) (Some (fresh (dom (heredocs m))))]>
               (states m))).
Proof.
  unfold tree_sitter_raku_external_scanner_create.
  erewrite bind_returns by (unfold malloc_state; reflexivity).
  erewrite bind_returns by (unfold calloc_brace; reflexivity).
  erewrite bind_returns by (unfold calloc_heredoc; reflexivity).
  erewrite bind_returns by (apply update_brace_allocated; cbn; apply lookup_insert_eq).
  erewrite bind_returns by (apply update_heredoc_allocated; cbn; apply lookup_insert_eq).
  erewrite bind_returns by (apply update_state_allocated; cbn; apply lookup_insert_eq).
  erewrite bind_returns by (apply update_state_allocated; cbn; apply lookup_insert_eq).
  unfold ret, with_braces, with_heredocs, with_states; cbn.
  rewrite !insert_insert_eq. reflexivity.
Qed.

(** The created state is well formed: both stacks are a lone root. *)
Lemma create_wf (m : memory) :
  exists state m' lb lh,
    tree_sitter_raku_external_scanner_create m = (Returns state, m') /\
    scanner_state_wf m' state [(lb, zero_brace)] [(lh, zero_heredoc)] /\
    braces m !! lb = None /\ heredocs m !! lh = None.
Proof.
  eexists _, _, _, _. split; [apply create_returns|]. split.
  - eexists _, _. split; [reflexivity|]. split; [cbn; apply lookup_insert_eq|].
    cbn. split.
    + split; [done|]. split.
      * cbn. split; [done|]. split; [apply lookup_insert_eq | done].
      * cbn. unfold is_size_t, is_uint32, SIZE_MAX, UINT32_MAX. lia.
    + split; [| done]. split; [done|]. split.
      * cbn. split; [done|]. split; [apply lookup_insert_eq | done].
      * cbn. unfold is_size_t, is_uint32, SIZE_MAX, UINT32_MAX.
        repeat split; try lia. constructor.
  - split; [apply fresh_brace_unallocated | apply fresh_heredoc_unallocated].
Qed.

(** ** Runs of brace-stack operations *)

Section BraceRuns.
Variable BRACE_TABLE : Z -> Z.
Variable BACE_TABLE_MAX : Z.

Lemma run_brace_ops_wf fuel ops : forall (m : memory) head fs,
  brace_stack_wf m head fs ->
  never_underflows (length fs - 1) ops ->
  Z.of_nat (length fs + pushes ops) <= SIZE_MAX + 1 ->
  exists head' m' fs',
    run_brace_ops BRACE_TABLE BACE_TABLE_MAX (S (S fuel)) ops head m = (Returns head', m') /\
    brace_stack_wf m' head' fs' /\
    (length fs' + pops ops = length fs + pushes ops)%nat /\
    last fs' = last fs /\
    heredocs m' = heredocs m /\ states m' = states m.
Proof.
  induction ops as [|[c|] ops IH]; intros m head fs Hwf Hnu Hlen.
  - exists head, m, fs. cbn. rewrite !Nat.add_0_r. done.
  - cbn in Hnu, Hlen.
    destruct (brace_stack_push_wf BRACE_TABLE BACE_TABLE_MAX m head fs c Hwf)
      as (l & f & m1 & Hpush & Hh & Hs & Hwf1); [lia|].
    destruct (IH m1 (Some l) ((l, f) :: fs) Hwf1) as (head' & m' & fs' & Hrun & Hwf' & Hn & Hlast & Hh' & Hs').
    { destruct Hwf as (Hne & _). destruct fs; [done|]. cbn [length] in *.
      replace (S (S (length fs)) - 1)%nat with (S (S (length fs) - 1)) by lia. exact Hnu. }
    { cbn [length]. lia. }
    exists head', m', fs'. cbn [run_brace_ops].
    rewrite (bind_returns _ _ _ _ _ Hpush). split; [exact Hrun|]. split; [exact Hwf'|].
    split; [cbn [length pushes pops] in *; lia|].
    split; [| split; congruence].
    rewrite Hlast. destruct Hwf as (Hne & _). destruct fs; [done | reflexivity].
  - cbn in Hnu, Hlen.
    destruct fs as [|lf fs]; [destruct Hwf as (? & _); done|].
    cbn [length] in Hnu. replace (S (length fs) - 1)%nat with (length fs) in Hnu by lia.
    destruct fs as [|lf' fs]; [done|].
    destruct (brace_stack_pop_wf fuel m head lf (lf' :: fs) Hwf) as (Hpop & Hwf1); [done|].
    destruct (IH _ _ _ Hwf1) as (head' & m' & fs' & Hrun & Hwf' & Hn & Hlast & Hh' & Hs').
    { cbn [length] in *. replace (S (length fs) - 1)%nat with (length fs) by lia. exact Hnu. }
    { cbn [length] in *. lia. }
    exists head', m', fs'. cbn [run_brace_ops].
    rewrite (bind_returns _ _ _ _ _ Hpop). split; [exact Hrun|]. split; [exact Hwf'|].
    split; [cbn [length pushes pops] in *; lia|].
    split; [rewrite Hlast; reflexivity | split; [rewrite Hh' | rewrite Hs']; reflexivity].
Qed.

(** A pop that meets the root aborts the whole run. *)
Lemma run_brace_ops_underflow fuel ops : forall (m : memory) head fs,
  brace_stack_wf m head fs ->
  ~ never_underflows (length fs - 1) ops ->
  Z.of_nat (length fs + pushes ops) <= SIZE_MAX + 1 ->
  fst (run_brace_ops BRACE_TABLE BACE_TABLE_MAX (S (S fuel)) ops head m) = AssertionFailed.
Proof.
  induction ops as [|[c|] ops IH]; intros m head fs Hwf Hnu Hlen.
  - cbn in Hnu. done.
  - cbn in Hnu, Hlen.
    destruct (brace_stack_push_wf BRACE_TABLE BACE_TABLE_MAX m head fs c Hwf)
      as (l & f & m1 & Hpush & Hh & Hs & Hwf1); [lia|].
    cbn [run_brace_ops]. rewrite (bind_returns _ _ _ _ _ Hpush).
    apply (IH m1 (Some l) ((l, f) :: fs) Hwf1).
    + destruct Hwf as (Hne & _). destruct fs; [done|]. cbn [length] in *.
      replace (S (S (length fs)) - 1)%nat with (S (S (length fs) - 1)) by lia. exact Hnu.
    + cbn [length]. lia.
  - cbn in Hnu, Hlen.
    destruct fs as [|lf fs]; [destruct Hwf as (? & _); done|].
    cbn [length] in Hnu. replace (S (length fs) - 1)%nat with (length fs) in Hnu by lia.
    destruct fs as [|lf' fs].
    + cbn [run_brace_ops].
      rewrite (bind_assertion_failed _ _ _ _ (brace_stack_pop_root_wf _ m head lf Hwf)).
      reflexivity.
    + destruct (brace_stack_pop_wf fuel m head lf (lf' :: fs) Hwf) as (Hpop & Hwf1); [done|].
      cbn [run_brace_ops]. rewrite (bind_returns _ _ _ _ _ Hpop).
      apply (IH _ _ _ Hwf1).
      * cbn [length] in *. replace (S (length fs) - 1)%nat with (length fs) by lia. exact Hnu.
      * cbn [length] in *. lia.
Qed.
End BraceRuns.

(** ** Byte representations *)

Lemma length_le_bytes n v : length (le_bytes n v) = n.
Proof. revert v. induction n as [|n IH]; intros v; cbn; [done|]. by rewrite IH. Qed.

Lemma le_value_le_bytes n v : le_value (le_bytes n v) = v mod 256 ^ Z.of_nat n.
Proof.
  revert v. induction n as [|n IH]; intros v.
  - cbn. by rewrite Z.mod_1_r.
  - cbn [le_bytes le_value]. rewrite IH.
    rewrite Nat2Z.inj_succ, Z.pow_succ_r by lia.
    rewrite Z.rem_mul_r by lia. lia.
Qed.

Lemma le_value_le_bytes_size_t v :
  is_size_t v -> le_value (le_bytes (sizeof size_t) v) = v.
Proof.
  intros H. rewrite le_value_le_bytes. apply Z.mod_small.
  unfold is_size_t, SIZE_MAX in H. cbn. lia.
Qed.

Lemma le_value_le_bytes_uint32 v :
  is_uint32 v -> le_value (le_bytes (sizeof uint32_t) v) = v.
Proof.
  intros H. rewrite le_value_le_bytes. apply Z.mod_small.
  unfold is_uint32, UINT32_MAX in H. cbn. lia.
Qed.

Lemma length_concat_le_bytes n (xs : list Z) :
  length (concat (map (le_bytes n) xs)) = (length xs * n)%nat.
Proof.
  induction xs as [|x xs IH]; cbn; [done|].
  by rewrite length_app, length_le_bytes, IH.
Qed.

Lemma take_le_bytes_app n v (rest : list Z) : take n (le_bytes n v ++ rest) = le_bytes n v.
Proof. rewrite take_app_length'; [done | by rewrite length_le_bytes]. Qed.

Lemma drop_le_bytes_app n v (rest : list Z) : drop n (le_bytes n v ++ rest) = rest.
Proof. rewrite drop_app_length'; [done | by rewrite length_le_bytes]. Qed.

Lemma decode_array_concat (xs rest : list Z) :
  Forall is_uint32 xs ->
  decode_array (sizeof uint32_t) (length xs)
               (concat (map (le_bytes (sizeof uint32_t)) xs) ++ rest) = xs.
Proof.
  induction 1 as [|x xs Hx _ IH]; [done|].
  cbn [length decode_array map concat]. rewrite <- app_assoc.
  rewrite take_le_bytes_app, drop_le_bytes_app, IH.
  by rewrite le_value_le_bytes_uint32.
Qed.

Lemma drop_concat_le_bytes n (xs rest : list Z) :
  drop (length xs * n) (concat (map (le_bytes n) xs) ++ rest) = rest.
Proof. rewrite drop_app_length'; [done | by rewrite length_concat_le_bytes]. Qed.

(** ** The decoder on encoded sections *)

Lemma read_value_size_t v (rest : list Z) :
  is_size_t v ->
  read_value (sizeof size_t) (le_bytes (sizeof size_t) v ++ rest) = Decoded (v, rest).
Proof.
  intros H. unfold read_value.
  rewrite length_app, length_le_bytes.
  replace (sizeof size_t <=? sizeof size_t + length rest)%nat with true
    by (symmetry; apply Nat.leb_le; lia).
  cbn [check decoded_bind].
  by rewrite take_le_bytes_app, drop_le_bytes_app, le_value_le_bytes_size_t.
Qed.

Lemma read_value_uint32 v (rest : list Z) :
  is_uint32 v ->
  read_value (sizeof uint32_t) (le_bytes (sizeof uint32_t) v ++ rest) = Decoded (v, rest).
Proof.
  intros H. unfold read_value.
  rewrite length_app, length_le_bytes.
  replace (sizeof uint32_t <=? sizeof uint32_t + length rest)%nat with true
    by (symmetry; apply Nat.leb_le; lia).
  cbn [check decoded_bind].
  by rewrite take_le_bytes_app, drop_le_bytes_app, le_value_le_bytes_uint32.
Qed.

Lemma read_values_uint32 (xs rest : list Z) :
  Forall is_uint32 xs ->
  read_values (sizeof uint32_t) (Z.of_nat (length xs))
              (concat (map (le_bytes (sizeof uint32_t)) xs) ++ rest) = Decoded (xs, rest).
Proof.
  intros H. unfold read_values.
  rewrite length_app, length_concat_le_bytes.
  replace ((0 <=? Z.of_nat (length xs)) &&
           (Z.of_nat (length xs) * Z.of_nat (sizeof uint32_t)
            <=? Z.of_nat (length xs * sizeof uint32_t + length rest))) with true.
  - cbn [check decoded_bind]. rewrite Nat2Z.id.
    by rewrite decode_array_concat, drop_concat_le_bytes.
  - symmetry. apply andb_true_iff. split; [apply Z.leb_le | apply Z.leb_le]; lia.
Qed.

(** ** The serialiser on well-formed stacks *)

Lemma read_returns {A : Type} (m m' : memory) (c : prog memory A) a (buf : list Z) :
  c m = (Returns a, m') -> read m c buf = (Returns a, buf).
Proof. intros H. unfold read. by rewrite H. Qed.

Lemma non_root_cons {A : Type} (x y : A) (l : list A) :
  non_root (x :: y :: l) = x :: non_root (y :: l).
Proof. reflexivity. Qed.

Lemma length_non_root {A : Type} (l : list A) : length (non_root l) = (length l - 1)%nat.
Proof.
  induction l as [|x [|y l] IH]; [done | done |].
  rewrite non_root_cons. cbn [length] in *. lia.
Qed.

(** *** Stores, one after the other *)

Lemma stores_ret : stores (ret tt) [].
Proof.
  intros buf Hbuf. split.
  - intros _. unfold ret. by rewrite app_nil_r.
  - rewrite length_nil. lia.
Qed.

Lemma stores_BUF_WRITE (type : ctype) (v : Z) :
  stores (BUF_WRITE type v) (le_bytes (sizeof type) v).
Proof.
  intros buf Hbuf. rewrite length_le_bytes. unfold BUF_WRITE.
  destruct (Z.leb_spec (Z.of_nat (length buf + sizeof type))
                       TREE_SITTER_SERIALIZATION_BUFFER_SIZE) as [Hfit | Hover].
  - split; [done | lia].
  - split; [lia|]. intros _. by exists buf, (le_bytes (sizeof type) v).
Qed.

Lemma stores_bind (c1 c2 : prog (list Z) unit) (b1 b2 : list Z) :
  stores c1 b1 -> stores c2 b2 -> stores (c1 ;;; c2) (b1 ++ b2).
Proof.
  intros H1 H2 buf Hbuf. rewrite length_app.
  destruct (H1 buf Hbuf) as [Hfit1 Hover1].
  destruct (Z_le_gt_dec (Z.of_nat (length buf + length b1))
                        TREE_SITTER_SERIALIZATION_BUFFER_SIZE) as [Hle | Hgt].
  - rewrite (bind_returns _ _ _ _ _ (Hfit1 Hle)).
    destruct (H2 (buf ++ b1)) as [Hfit2 Hover2]; [rewrite length_app; lia|].
    rewrite length_app in Hfit2, Hover2. rewrite app_assoc. split.
    + intros Hfit. apply Hfit2. lia.
    + intros Hover. apply Hover2. lia.
  - split; [lia|]. intros _.
    destruct Hover1 as (stored & rest & E & Hsplit & Hstored); [lia|].
    exists stored, (rest ++ b2). unfold bind. rewrite E.
    split; [done|]. split; [| done]. by rewrite !app_assoc, Hsplit.
Qed.

Lemma stores_read {A : Type} (m m' : memory) (c : prog memory A) a
    (k : A -> prog (list Z) unit) (bytes : list Z) :
  c m = (Returns a, m') -> stores (k a) bytes -> stores (x <~ read m c ;; k x) bytes.
Proof.
  intros H Hk buf Hbuf.
  rewrite (bind_returns _ _ _ _ _ (read_returns _ _ _ _ buf H)). by apply Hk.
Qed.

Lemma stores_BUF_WRITE_ARRAY (xs : list Z) :
  stores (BUF_WRITE_ARRAY uint32_t (Z.of_nat (length xs)) xs)
         (le_bytes (sizeof size_t) (Z.of_nat (length xs)) ++
          concat (map (le_bytes (sizeof uint32_t)) xs)).
Proof.
  unfold BUF_WRITE_ARRAY. apply stores_bind; [apply stores_BUF_WRITE|].
  intros buf Hbuf. rewrite length_concat_le_bytes.
  replace ((0 <=? Z.of_nat (length xs)) && (Z.of_nat (length xs) <=? Z.of_nat (length xs)))
    with true by (symmetry; apply andb_true_iff; split; apply Z.leb_le; lia).
  cbn [andb]. rewrite Nat2Z.id, firstn_all.
  destruct (Z.leb_spec (Z.of_nat (length buf) + Z.of_nat (length xs) * Z.of_nat (sizeof uint32_t))
                       TREE_SITTER_SERIALIZATION_BUFFER_SIZE) as [Hfit | Hover].
  - split; [done | lia].
  - split; [lia|]. intros _.
    by exists buf, (concat (map (le_bytes (sizeof uint32_t)) xs)).
Qed.

(** What comes after a part that stores [bytes] runs from the buffer with
    [bytes] appended, when they fit. *)
Lemma stores_then {B : Type} (c : prog (list Z) unit) (bytes : list Z)
    (k : prog (list Z) B) (buf : list Z) :
  stores c bytes ->
  Z.of_nat (length buf) <= TREE_SITTER_SERIALIZATION_BUFFER_SIZE ->
  (Z.of_nat (length buf + length bytes) <= TREE_SITTER_SERIALIZATION_BUFFER_SIZE ->
   (c ;;; k) buf = k (buf ++ bytes)) /\
  (TREE_SITTER_SERIALIZATION_BUFFER_SIZE < Z.of_nat (length buf + length bytes) ->
   exists stored rest,
     (c ;;; k) buf = (Undefined, stored) /\ buf ++ bytes = stored ++ rest /\
     Z.of_nat (length stored) <= TREE_SITTER_SERIALIZATION_BUFFER_SIZE).
Proof.
  intros Hc Hbuf. destruct (Hc buf Hbuf) as [Hfit Hover]. split.
  - intros H. by rewrite (bind_returns _ _ _ _ _ (Hfit H)).
  - intros H. destruct (Hover H) as (stored & rest & E & Hsplit & Hstored).
    exists stored, rest. unfold bind. by rewrite E.
Qed.

(** *** The two loops *)

Lemma write_braces_stores (m : memory) fs : forall p fuel,
  brace_chain m p fs -> brace_frames_ok fs -> fs <> [] -> (length fs <= fuel)%nat ->
  stores (write_braces fuel m p)
    (concat (map (fun lf => le_bytes (sizeof uint32_t) (BraceStack.closing_brace (snd lf)))
                 (non_root fs))).
Proof.
  induction fs as [|[l f] fs IH]; intros p fuel Hc Hok Hne Hfuel; [done|].
  destruct fuel as [|fuel]; [cbn in Hfuel; lia|].
  destruct Hc as (-> & Hl & Hc). destruct Hok as (Hd & _ & _ & Hok). cbn [fst snd] in *.
  cbn [write_braces]. apply (stores_read _ _ _ _ _ _ (load_brace_allocated _ _ _ Hl)).
  destruct fs as [|[l' f'] fs].
  - rewrite Hd. exact stores_ret.
  - replace (BraceStack.depth f >? 0) with true
      by (symmetry; apply Z.gtb_lt; rewrite Hd; cbn [length]; lia).
    pose proof Hc as (Hn & _). cbn [fst] in Hn. rewrite Hn in *.
    rewrite non_root_cons. cbn [map concat fst snd].
    change (stores (BUF_WRITE uint32_t (BraceStack.closing_brace f) ;;;
                    write_braces fuel m (Some l'))
                   (le_bytes (sizeof uint32_t) (BraceStack.closing_brace f) ++
                    concat (map (fun lf => le_bytes (sizeof uint32_t)
                                             (BraceStack.closing_brace (snd lf)))
                                (non_root ((l', f') :: fs))))).
    apply stores_bind; [apply stores_BUF_WRITE|].
    apply IH; [exact Hc | exact Hok | done | cbn [length] in *; lia].
Qed.

Lemma write_heredocs_stores (m : memory) fs : forall p fuel,
  heredoc_chain m p fs -> heredoc_frames_ok fs -> fs <> [] -> (length fs <= fuel)%nat ->
  stores (write_heredocs fuel m p)
    (concat (map (fun lf => heredoc_record (snd lf)) (non_root fs))).
Proof.
  induction fs as [|[l f] fs IH]; intros p fuel Hc Hok Hne Hfuel; [done|].
  destruct fuel as [|fuel]; [cbn in Hfuel; lia|].
  destruct Hc as (-> & Hl & Hc). destruct Hok as (Hd & _ & _ & Hsl & _ & _ & Hok).
  cbn [fst snd] in *. cbn [write_heredocs].
  apply (stores_read _ _ _ _ _ _ (load_heredoc_allocated _ _ _ Hl)).
  destruct fs as [|[l' f'] fs].
  - rewrite Hd. exact stores_ret.
  - replace (HeredocStack.depth f >? 0) with true
      by (symmetry; apply Z.gtb_lt; rewrite Hd; cbn [length]; lia).
    pose proof Hc as (Hn & _). cbn [fst] in Hn. rewrite Hn in *.
    rewrite non_root_cons. cbn [map concat fst snd]. unfold heredoc_record at 1.
    rewrite Hsl.
    change (stores (BUF_WRITE uint32_t (HeredocStack.all_flags f) ;;;
                    BUF_WRITE_ARRAY uint32_t (Z.of_nat (length (HeredocStack.sentinel f)))
                                    (HeredocStack.sentinel f) ;;;
                    write_heredocs fuel m (Some l'))
                   ((le_bytes (sizeof uint32_t) (HeredocStack.all_flags f) ++
                     le_bytes (sizeof size_t) (Z.of_nat (length (HeredocStack.sentinel f))) ++
                     concat (map (le_bytes (sizeof uint32_t)) (HeredocStack.sentinel f))) ++
                    concat (map (fun lf => heredoc_record (snd lf))
                                (non_root ((l', f') :: fs))))).
    rewrite <- app_assoc.
    apply stores_bind; [apply stores_BUF_WRITE|].
    apply stores_bind; [apply stores_BUF_WRITE_ARRAY|].
    apply IH; [exact Hc | exact Hok | done | cbn [length] in *; lia].
Qed.

Lemma brace_top_depth (m : memory) p fs :
  brace_stack_wf m p fs ->
  exists l f, p = Some l /\ braces m !! l = Some f /\
    BraceStack.depth f = Z.of_nat (length (non_root fs)).
Proof.
  intros (Hne & Hc & Hok). destruct fs as [|[l f] fs]; [done|].
  destruct Hc as (-> & Hl & _). destruct Hok as (Hd & _).
  exists l, f. split; [done|]. split; [done|].
  rewrite length_non_root. cbn [length snd] in *. lia.
Qed.

Lemma heredoc_top_depth (m : memory) p fs :
  heredoc_stack_wf m p fs ->
  exists l f, p = Some l /\ heredocs m !! l = Some f /\
    HeredocStack.depth f = Z.of_nat (length (non_root fs)).
Proof.
  intros (Hne & Hc & Hok). destruct fs as [|[l f] fs]; [done|].
  destruct Hc as (-> & Hl & _). destruct Hok as (Hd & _).
  exists l, f. split; [done|]. split; [done|].
  rewrite length_non_root. cbn [length snd] in *. lia.
Qed.

Lemma stores_brace_section fuel (m : memory) lb fb bfs :
  brace_stack_wf m (Some lb) bfs -> (length bfs <= fuel)%nat ->
  BraceStack.depth fb = Z.of_nat (length (non_root bfs)) ->
  stores (BUF_WRITE size_t (BraceStack.depth fb) ;;; write_braces fuel m (Some lb))
         (brace_section bfs).
Proof.
  intros (Hne & Hc & Hok) Hfuel ->. unfold brace_section.
  apply stores_bind; [apply stores_BUF_WRITE | by apply write_braces_stores].
Qed.

Lemma stores_heredoc_section fuel (m : memory) lh fh hfs :
  heredoc_stack_wf m (Some lh) hfs -> (length hfs <= fuel)%nat ->
  HeredocStack.depth fh = Z.of_nat (length (non_root hfs)) ->
  stores (BUF_WRITE size_t (HeredocStack.depth fh) ;;; write_heredocs fuel m (Some lh))
         (heredoc_section hfs).
Proof.
  intros (Hne & Hc & Hok) Hfuel ->. unfold heredoc_section.
  apply stores_bind; [apply stores_BUF_WRITE | by apply write_heredocs_stores].
Qed.

(** The serialiser on a well-formed state, given fuel for both loops:
    a part that stores the brace section, the first check, a part that
    stores the heredoc section, the second check. *)
Lemma serialize_two_sections fuel (m : memory) state bfs hfs :
  scanner_state_wf m state bfs hfs ->
  (length bfs <= fuel)%nat -> (length hfs <= fuel)%nat ->
  exists cb ch : prog (list Z) unit,
    stores cb (brace_section bfs) /\ stores ch (heredoc_section hfs) /\
    serialize fuel m state =
      (cb ;;;
       len <~ written ;;
       assert (len <=? TREE_SITTER_SERIALIZATION_BUFFER_SIZE) ;;;
       ch ;;;
       len' <~ written ;;
       assert (len' <=? TREE_SITTER_SERIALIZATION_BUFFER_SIZE) ;;;
       ret (to_uint32 len')) [].
Proof.
  intros (ls & s & -> & Hs & Hb & Hh & _) Hfb Hfh.
  destruct (brace_top_depth _ _ _ Hb) as (lb & fb & Hpb & Hlb & Hdb).
  destruct (heredoc_top_depth _ _ _ Hh) as (lh & fh & Hph & Hlh & Hdh).
  rewrite Hpb in Hb. rewrite Hph in Hh.
  exists (BUF_WRITE size_t (BraceStack.depth fb) ;;; write_braces fuel m (Some lb)),
         (BUF_WRITE size_t (HeredocStack.depth fh) ;;; write_heredocs fuel m (Some lh)).
  split; [by apply stores_brace_section|]. split; [by apply stores_heredoc_section|].
  unfold serialize, tree_sitter_raku_external_scanner_serialize.
  rewrite (bind_returns _ _ _ tt []) by reflexivity.
  rewrite (bind_returns _ _ _ _ _ (read_returns _ _ _ _ [] (load_state_allocated _ _ _ Hs))).
  rewrite Hpb, Hph. cbn [is_null negb].
  rewrite (bind_returns _ _ _ tt []) by reflexivity.
  rewrite (bind_returns _ _ _ tt []) by reflexivity.
  rewrite (bind_returns _ _ _ _ _ (read_returns _ _ _ _ [] (load_brace_allocated _ _ _ Hlb))).
  unfold bind.
  destruct (BUF_WRITE size_t (BraceStack.depth fb) []) as [[[]| | |] buf1]; try reflexivity.
  destruct (write_braces fuel m (Some lb) buf1) as [[[]| | |] buf2]; try reflexivity.
  unfold written, assert, read. rewrite (load_heredoc_allocated _ _ _ Hlh). cbn [fst].
  destruct (_ <=? _); [| reflexivity].
  destruct (BUF_WRITE size_t (HeredocStack.depth fh) buf2) as [[[]| | |] buf3];
    reflexivity.
Qed.

(** An encoding that fits: the call returns its size, with the two
    sections in the buffer. *)
Lemma serialize_fits fuel (m : memory) state bfs hfs :
  scanner_state_wf m state bfs hfs ->
  (length bfs <= fuel)%nat -> (length hfs <= fuel)%nat ->
  encoded_size bfs hfs <= TREE_SITTER_SERIALIZATION_BUFFER_SIZE ->
  serialize fuel m state =
    (Returns (encoded_size bfs hfs), brace_section bfs ++ heredoc_section hfs).
Proof.
  intros Hwf Hfb Hfh Hfit.
  destruct (serialize_two_sections fuel m state bfs hfs Hwf Hfb Hfh)
    as (cb & ch & Hcb & Hch & ->).
  unfold encoded_size in *. rewrite length_app in *.
  rewrite (proj1 (stores_then _ _ _ [] Hcb ltac:(done))) by (cbn [length]; lia).
  cbn [app]. rewrite (bind_returns _ _ _ _ _ (eq_refl : written _ = (Returns _, _))).
  replace (Z.of_nat (length (brace_section bfs)) <=? TREE_SITTER_SERIALIZATION_BUFFER_SIZE)
    with true by (symmetry; apply Z.leb_le; lia).
  rewrite (bind_returns _ _ _ tt (brace_section bfs)) by reflexivity.
  rewrite (proj1 (stores_then _ _ _ (brace_section bfs) Hch ltac:(lia))) by lia.
  rewrite (bind_returns _ _ _ _ _ (eq_refl : written _ = (Returns _, _))).
  rewrite length_app.
  replace (Z.of_nat (length (brace_section bfs) + length (heredoc_section hfs))
           <=? TREE_SITTER_SERIALIZATION_BUFFER_SIZE)
    with true by (symmetry; apply Z.leb_le; lia).
  rewrite (bind_returns _ _ _ tt _) by reflexivity.
  unfold ret. rewrite to_uint32_small; [reflexivity|].
  unfold is_uint32, UINT32_MAX, TREE_SITTER_SERIALIZATION_BUFFER_SIZE in *. lia.
Qed.

(** An encoding that does not fit: the call runs into a store that ends
    beyond the buffer before it reaches a check, with a part of the
    encoding, from the front, stored. *)
Lemma serialize_overflows fuel (m : memory) state bfs hfs :
  scanner_state_wf m state bfs hfs ->
  (length bfs <= fuel)%nat -> (length hfs <= fuel)%nat ->
  TREE_SITTER_SERIALIZATION_BUFFER_SIZE < encoded_size bfs hfs ->
  exists stored rest,
    serialize fuel m state = (Undefined, stored) /\
    brace_section bfs ++ heredoc_section hfs = stored ++ rest /\
    Z.of_nat (length stored) <= TREE_SITTER_SERIALIZATION_BUFFER_SIZE.
Proof.
  intros Hwf Hfb Hfh Hover.
  destruct (serialize_two_sections fuel m state bfs hfs Hwf Hfb Hfh)
    as (cb & ch & Hcb & Hch & ->).
  unfold encoded_size in *. rewrite length_app in *.
  destruct (Z_le_gt_dec (Z.of_nat (length (brace_section bfs)))
                        TREE_SITTER_SERIALIZATION_BUFFER_SIZE) as [Hle | Hgt].
  - rewrite (proj1 (stores_then _ _ _ [] Hcb ltac:(done))) by (cbn [length]; lia).
    cbn [app]. rewrite (bind_returns _ _ _ _ _ (eq_refl : written _ = (Returns _, _))).
    replace (Z.of_nat (length (brace_section bfs)) <=? TREE_SITTER_SERIALIZATION_BUFFER_SIZE)
      with true by (symmetry; apply Z.leb_le; lia).
    rewrite (bind_returns _ _ _ tt (brace_section bfs)) by reflexivity.
    apply (stores_then _ _ _ (brace_section bfs) Hch); lia.
  - destruct (proj2 (stores_then _ _ (len <~ written ;;
                       assert (len <=? TREE_SITTER_SERIALIZATION_BUFFER_SIZE) ;;;
                       ch ;;;
                       len' <~ written ;;
                       assert (len' <=? TREE_SITTER_SERIALIZATION_BUFFER_SIZE) ;;;
                       ret (to_uint32 len')) [] Hcb ltac:(done)))
      as (stored & rest & E & Hsplit & Hstored); [cbn [length]; lia|].
    exists stored, (rest ++ heredoc_section hfs).
    split; [exact E|]. split; [| exact Hstored].
    cbn [app] in Hsplit. by rewrite app_assoc, Hsplit.
Qed.

(** ** Decoding what the serialiser writes *)

Lemma heredoc_frames_ok_records fs :
  heredoc_frames_ok fs -> Forall (fun lf => record_ok (snd lf)) fs.
Proof.
  induction fs as [|lf fs IH]; [constructor|].
  intros (_ & _ & ? & ? & ? & ? & Hok). constructor; [done | auto].
Qed.

Lemma brace_frames_ok_closing fs :
  brace_frames_ok fs -> Forall (fun lf => is_uint32 (BraceStack.closing_brace (snd lf))) fs.
Proof.
  induction fs as [|lf fs IH]; [constructor|].
  intros (_ & _ & ? & Hok). constructor; [done | auto].
Qed.

Lemma Forall_non_root {A : Type} (P : A -> Prop) (l : list A) :
  Forall P l -> Forall P (non_root l).
Proof.
  induction 1 as [|x l Hx Hl IH]; [constructor|].
  destruct l as [|y l]; [constructor|]. rewrite non_root_cons. by constructor.
Qed.

Lemma length_heredoc_record f :
  length (heredoc_record f) =
    (sizeof uint32_t + sizeof size_t + length (HeredocStack.sentinel f) * sizeof uint32_t)%nat.
Proof.
  unfold heredoc_record.
  rewrite !length_app, !length_le_bytes, length_concat_le_bytes. lia.
Qed.

Lemma length_heredoc_records (fs : list (positive * heredoc_stack)) :
  (length fs * (sizeof uint32_t + sizeof size_t)
   <= length (concat (map (fun lf => heredoc_record (snd lf)) fs)))%nat.
Proof.
  induction fs as [|lf fs IH]; [done|].
  cbn [map concat length]. rewrite length_app, length_heredoc_record. lia.
Qed.

Lemma length_brace_section fs :
  Z.of_nat (length (brace_section fs)) = 8 + 4 * Z.of_nat (length (non_root fs)).
Proof.
  unfold brace_section.
  rewrite <- (map_map (fun lf => BraceStack.closing_brace (snd lf)) (le_bytes (sizeof uint32_t))).
  rewrite length_app, length_le_bytes, length_concat_le_bytes, length_map. cbn [sizeof]. lia.
Qed.

Lemma length_heredoc_records_exact (fs : list (positive * heredoc_stack)) :
  Z.of_nat (length (concat (map (fun lf => heredoc_record (snd lf)) fs))) =
    12 * Z.of_nat (length fs) +
    4 * Z.of_nat (length (concat (map (fun lf => HeredocStack.sentinel (snd lf)) fs))).
Proof.
  induction fs as [|lf fs IH]; [done|].
  cbn [map concat length]. rewrite !length_app, length_heredoc_record, !Nat2Z.inj_add, IH.
  cbn [sizeof]. cbn [length]. lia.
Qed.

Lemma encoded_size_formula bfs hfs :
  encoded_size bfs hfs =
    16 + 4 * Z.of_nat (length (non_root bfs)) + 12 * Z.of_nat (length (non_root hfs)) +
    4 * Z.of_nat (length (concat (map (fun lf => HeredocStack.sentinel (snd lf))
                                      (non_root hfs)))).
Proof.
  unfold encoded_size. rewrite length_app, Nat2Z.inj_add, length_brace_section.
  unfold heredoc_section.
  rewrite length_app, length_le_bytes, Nat2Z.inj_add, length_heredoc_records_exact.
  cbn [sizeof]. lia.
Qed.

Lemma read_heredocs_records (fs : list (positive * heredoc_stack)) (rest : list Z) :
  Forall (fun lf => record_ok (snd lf)) fs ->
  read_heredocs (length fs) (concat (map (fun lf => heredoc_record (snd lf)) fs) ++ rest) =
    Decoded (map (fun lf => (HeredocStack.all_flags (snd lf), HeredocStack.sentinel (snd lf))) fs,
             rest).
Proof.
  induction 1 as [|[l f] fs (Hfl & Hsl & Hsz & Hs) _ IH]; [done|].
  cbn [snd] in *.
  cbn [length read_heredocs map concat snd]. unfold heredoc_record at 1.
  rewrite <- !app_assoc.
  rewrite read_value_uint32 by done. cbn [decoded_bind fst snd].
  rewrite read_value_size_t by done. cbn [decoded_bind fst snd].
  rewrite Hsl, read_values_uint32 by done. cbn [decoded_bind fst snd].
  rewrite IH. reflexivity.
Qed.

Lemma number_brace_frames fs :
  brace_frames_ok fs -> snd <$> last fs = Some zero_brace ->
  number_frames (fun d c => {| bf_depth := d; bf_closing_delimiter := c |})
                (map (fun lf => BraceStack.closing_brace (snd lf)) (non_root fs))
    ++ brace_frames fresh_state = brace_view fs.
Proof.
  induction fs as [|lf fs IH]; [done|].
  intros (Hd & _ & _ & Hok) Hroot. destruct fs as [|lf' fs].
  - cbn in Hroot. injection Hroot as Hr. cbn. by rewrite Hr.
  - rewrite non_root_cons. cbn [map number_frames app brace_view].
    rewrite IH by done. unfold brace_view. cbn [map].
    f_equal. f_equal. cbn [length]. rewrite length_map, length_non_root, Hd.
    cbn [length]. lia.
Qed.

Lemma number_heredoc_frames fs :
  heredoc_frames_ok fs -> snd <$> last fs = Some zero_heredoc ->
  number_frames (fun d fs => {| hf_depth := d; hf_sentinel := snd fs;
                                hf_interp_flags := fst fs |})
                (map (fun lf => (HeredocStack.all_flags (snd lf), HeredocStack.sentinel (snd lf)))
                     (non_root fs))
    ++ heredoc_frames fresh_state = heredoc_view fs.
Proof.
  induction fs as [|lf fs IH]; [done|].
  intros (Hd & _ & _ & _ & _ & _ & Hok) Hroot. destruct fs as [|lf' fs].
  - cbn in Hroot. injection Hroot as Hr. cbn. by rewrite Hr.
  - rewrite non_root_cons. cbn [map number_frames app heredoc_view].
    rewrite IH by done. unfold heredoc_view. cbn [map].
    f_equal. f_equal. cbn [length]. rewrite length_map, length_non_root, Hd.
    cbn [length]. lia.
Qed.

Lemma read_closings (fs : list (positive * brace_stack)) (rest : list Z) :
  Forall (fun lf => is_uint32 (BraceStack.closing_brace (snd lf))) fs ->
  read_values (sizeof uint32_t) (Z.of_nat (length fs))
    (concat (map (fun lf => le_bytes (sizeof uint32_t) (BraceStack.closing_brace (snd lf))) fs)
     ++ rest) =
    Decoded (map (fun lf => BraceStack.closing_brace (snd lf)) fs, rest).
Proof.
  intros H.
  rewrite <- (length_map (fun lf => BraceStack.closing_brace (snd lf)) fs).
  rewrite <- (map_map (fun lf => BraceStack.closing_brace (snd lf))
                      (le_bytes (sizeof uint32_t)) fs).
  apply read_values_uint32. apply Forall_map. exact H.
Qed.

Lemma deserialize_nonempty (bytes : list Z) :
  bytes <> [] -> deserialize bytes = decode_layout bytes.
Proof. destruct bytes; [done | reflexivity]. Qed.

Lemma brace_section_nonempty bfs (rest : list Z) : brace_section bfs ++ rest <> [].
Proof.
  intros H. apply (f_equal length) in H.
  unfold brace_section in H. rewrite !length_app, length_le_bytes in H. cbn in H. lia.
Qed.

Lemma frames_count_size_t_brace fs :
  brace_frames_ok fs -> is_size_t (Z.of_nat (length (non_root fs))).
Proof.
  destruct fs as [|lf fs]; [unfold is_size_t, SIZE_MAX; cbn; lia|].
  intros (Hd & Hs & _). rewrite length_non_root. cbn [length].
  replace (S (length fs) - 1)%nat with (length fs) by lia. by rewrite <- Hd.
Qed.

Lemma frames_count_size_t_heredoc fs :
  heredoc_frames_ok fs -> is_size_t (Z.of_nat (length (non_root fs))).
Proof.
  destruct fs as [|lf fs]; [unfold is_size_t, SIZE_MAX; cbn; lia|].
  intros (Hd & Hs & _). rewrite length_non_root. cbn [length].
  replace (S (length fs) - 1)%nat with (length fs) by lia. by rewrite <- Hd.
Qed.

(** The decoder inverts the layout the serialiser writes. *)
Lemma deserialize_sections bfs hfs :
  brace_frames_ok bfs -> heredoc_frames_ok hfs -> roots_zero bfs hfs ->
  deserialize (brace_section bfs ++ heredoc_section hfs) = Decoded (state_view bfs hfs).
Proof.
  intros Hb Hh (Hrb & Hrh).
  rewrite deserialize_nonempty by apply brace_section_nonempty.
  unfold decode_layout, brace_section, heredoc_section.
  rewrite <- !app_assoc.
  rewrite read_value_size_t by (by apply frames_count_size_t_brace).
  cbn [decoded_bind fst snd].
  rewrite read_closings by (apply Forall_non_root, brace_frames_ok_closing, Hb).
  cbn [decoded_bind fst snd].
  rewrite read_value_size_t by (by apply frames_count_size_t_heredoc).
  cbn [decoded_bind fst snd].
  replace ((0 <=? Z.of_nat (length (non_root hfs))) &&
           (Z.of_nat (length (non_root hfs)) * Z.of_nat (sizeof uint32_t + sizeof size_t)
            <=? Z.of_nat (length (concat (map (fun lf => heredoc_record (snd lf))
                                              (non_root hfs))))))
    with true.
  - cbn [check decoded_bind]. rewrite Nat2Z.id.
    rewrite <- (app_nil_r (concat _)).
    rewrite read_heredocs_records
      by (apply Forall_non_root, heredoc_frames_ok_records, Hh).
    cbn [decoded_bind fst snd].
    rewrite number_brace_frames, number_heredoc_frames by done. reflexivity.
  - symmetry. apply andb_true_iff. split; apply Z.leb_le; [lia|].
    pose proof (length_heredoc_records (non_root hfs)). lia.
Qed.

Lemma registered_test TABLE MAX c :
  (c <? MAX) && negb (TABLE c =? 0) = true <-> registered TABLE MAX c.
Proof.
  unfold registered. rewrite andb_true_iff, negb_true_iff, Z.ltb_lt, Z.eqb_neq. done.
Qed.

(** ** Freeing whole stacks *)

Lemma with_braces_same (m : memory) : with_braces m (braces m) = m.
Proof. by destruct m. Qed.

Lemma lookup_foldr_delete_outside {F : Type} (heap : gmap positive F) (ls : list positive) l :
  l ∉ ls -> foldr delete heap ls !! l = heap !! l.
Proof.
  induction ls as [|l' ls IH]; [done|].
  intros Hl. apply not_elem_of_cons in Hl as [Hne Hl]. cbn [foldr].
  rewrite lookup_delete_ne by done. auto.
Qed.

Lemma chain_next_not_self {F : Type} (next : F -> ptr) (heap : gmap positive F) l f fs :
  chain next heap (Some l) ((l, f) :: fs) -> next f <> Some l.
Proof.
  intros Hc Hn. pose proof (chain_NoDup _ _ _ _ Hc) as Hnd.
  destruct Hc as (_ & _ & Hc). cbn [snd] in Hc. rewrite Hn in Hc.
  destruct fs as [|[l' f'] fs]; [done|]. destruct Hc as (E & _). injection E as <-.
  cbn in Hnd. apply NoDup_cons in Hnd as [Hnotin _]. apply Hnotin. left.
Qed.

Lemma ptr_eqb_neq (p : ptr) l : p <> Some l -> ptr_eqb p (Some l) = false.
Proof.
  destruct p as [l'|]; cbn; [|done].
  intros H. destruct (Pos.eqb_spec l' l); [congruence | done].
Qed.

(** [brace_stack_free] returns once it has fuel for every frame and the
    final null pointer, and has then freed exactly the frames of the
    chain. *)
Lemma brace_stack_free_chain fs : forall (m : memory) p fuel,
  brace_chain m p fs -> (length fs < fuel)%nat ->
  brace_stack_free fuel p m =
    (Returns tt, with_braces m (foldr delete (braces m) fs.*1)).
Proof.
  induction fs as [|[l f] fs IH]; intros m p fuel Hc Hfuel.
  - cbn in Hc. subst p. destruct fuel; [cbn in Hfuel; lia|].
    cbn. by rewrite with_braces_same.
  - destruct fuel as [|fuel]; [lia|].
    pose proof Hc as (-> & Hl & Hc'). cbn [fst snd] in *.
    cbn [brace_stack_free is_null].
    rewrite (bind_returns _ _ _ _ _ (load_brace_allocated _ _ _ Hl)).
    rewrite (ptr_eqb_neq _ _ (chain_next_not_self _ _ _ _ _ Hc)). cbn [negb].
    rewrite (bind_returns _ _ _ tt m) by reflexivity.
    rewrite (bind_returns _ _ _ _ _ (IH m _ fuel Hc' ltac:(cbn [length] in Hfuel; lia))).
    pose proof (chain_NoDup _ _ _ _ Hc) as Hnd. cbn in Hnd.
    apply NoDup_cons in Hnd as [Hnotin _].
    erewrite free_brace_allocated
      by (cbn; rewrite lookup_foldr_delete_outside by done; exact Hl).
    reflexivity.
Qed.

Lemma brace_stack_free_short fs : forall (m : memory) p fuel,
  brace_chain m p fs -> (fuel <= length fs)%nat ->
  brace_stack_free fuel p m = (OutOfFuel, m).
Proof.
  induction fs as [|[l f] fs IH]; intros m p fuel Hc Hfuel.
  - cbn in Hfuel. by replace fuel with O by lia.
  - destruct fuel as [|fuel]; [done|].
    pose proof Hc as (-> & Hl & Hc'). cbn [fst snd] in *.
    cbn [brace_stack_free is_null].
    rewrite (bind_returns _ _ _ _ _ (load_brace_allocated _ _ _ Hl)).
    rewrite (ptr_eqb_neq _ _ (chain_next_not_self _ _ _ _ _ Hc)). cbn [negb].
    rewrite (bind_returns _ _ _ tt m) by reflexivity.
    apply bind_out_of_fuel. apply IH; [done | cbn [length] in Hfuel; lia].
Qed.

(** Popping a heredoc frame above the root does not return either: the
    frame is detached and [heredoc_stack_free] is entered. *)
Lemma heredoc_stack_pop_diverges fuel (m : memory) l f l' :
  heredocs m !! l = Some f -> 0 < HeredocStack.depth f -> HeredocStack.next f = Some l' ->
  fst (heredoc_stack_pop fuel (Some l) m) = OutOfFuel.
Proof.
  intros Hl Hd Hn. unfold heredoc_stack_pop.
  rewrite (bind_returns _ _ _ tt m) by reflexivity.
  rewrite (bind_returns _ _ _ _ _ (load_heredoc_allocated _ _ _ Hl)).
  rewrite (bind_returns _ _ _ tt m)
    by (unfold assert; destruct (Z.gtb_spec (HeredocStack.depth f) 0); [done | lia]).
  rewrite Hn. rewrite (bind_returns _ _ _ tt m) by reflexivity.
  rewrite (bind_returns _ _ _ _ _ (update_heredoc_allocated _ _ _ _ Hl)).
  erewrite bind_out_of_fuel; [reflexivity|].
  apply heredoc_stack_free_diverges with (f := set_heredoc_next NULL f);
    [cbn; apply lookup_insert_eq | done].
Qed.

(** ** Example states *)

Lemma created_brace_stack_wf :
  brace_stack_wf created_memory (Some 1%positive) [(1%positive, zero_brace)].
Proof.
  split; [done|]. split.
  - split; [reflexivity|]. split; [reflexivity | reflexivity].
  - cbn. unfold is_size_t, is_uint32, SIZE_MAX, UINT32_MAX. lia.
Qed.

Lemma created_state_wf :
  scanner_state_wf created_memory created_state
    [(1%positive, zero_brace)] [(1%positive, zero_heredoc)].
Proof.
  exists 1%positive, (State (Some 1%positive) (Some 1%positive)).
  split; [reflexivity|]. split; [reflexivity|].
  split; [exact created_brace_stack_wf|]. split; [| done].
  split; [done|]. split.
  - split; [reflexivity|]. split; [reflexivity | reflexivity].
  - cbn. unfold is_size_t, is_uint32, SIZE_MAX, UINT32_MAX. repeat split; try lia. constructor.
Qed.

Lemma example_brace_stack_wf :
  brace_stack_wf example_memory (Some 3%positive) example_brace_frames.
Proof.
  split; [done|]. split.
  - repeat (split; [reflexivity|]). reflexivity.
  - cbn. unfold is_size_t, is_uint32, SIZE_MAX, UINT32_MAX. lia.
Qed.

Lemma example_heredoc_stack_wf :
  heredoc_stack_wf example_memory (Some 2%positive) example_heredoc_frames.
Proof.
  split; [done|]. split.
  - repeat (split; [reflexivity|]). reflexivity.
  - cbn. unfold is_size_t, is_uint32, SIZE_MAX, UINT32_MAX.
    repeat split; try lia; repeat constructor; lia.
Qed.

Lemma example_heredoc_root_wf :
  heredoc_stack_wf example_memory (Some 1%positive) [(1%positive, zero_heredoc)].
Proof.
  split; [done|]. split.
  - repeat (split; [reflexivity|]). reflexivity.
  - cbn. unfold is_size_t, is_uint32, SIZE_MAX, UINT32_MAX.
    repeat split; try lia; constructor.
Qed.

Lemma example_state_wf :
  scanner_state_wf example_memory (Some 1%positive)
    example_brace_frames example_heredoc_frames.
Proof.
  exists 1%positive, (State (Some 3%positive) (Some 2%positive)).
  split; [reflexivity|]. split; [reflexivity|].
  split; [exact example_brace_stack_wf|]. split; [exact example_heredoc_stack_wf | done].
Qed.

Lemma brace_section_le_encoded_size bfs hfs :
  Z.of_nat (length (brace_section bfs)) <= encoded_size bfs hfs.
Proof. unfold encoded_size. rewrite length_app. lia. Qed.

(** ** Stacks depend on their own heap only *)

Lemma brace_stack_wf_ext (m m' : memory) p fs :
  braces m' = braces m -> brace_stack_wf m p fs -> brace_stack_wf m' p fs.
Proof. unfold brace_stack_wf, brace_chain. by intros ->. Qed.

Lemma heredoc_stack_wf_ext (m m' : memory) p fs :
  heredocs m' = heredocs m -> heredoc_stack_wf m p fs -> heredoc_stack_wf m' p fs.
Proof. unfold heredoc_stack_wf, heredoc_chain. by intros ->. Qed.

(** ** The decoder accepts the consistent slices and no other *)

Lemma check_decoded (b : bool) u : check b = Decoded u -> b = true.
Proof. destruct b; [done | discriminate]. Qed.

Lemma read_value_decoded w (bytes : list Z) v r :
  read_value w bytes = Decoded (v, r) ->
  (w <= length bytes)%nat /\ v = le_value (take w bytes) /\ r = drop w bytes.
Proof.
  unfold read_value. destruct (Nat.leb_spec w (length bytes)); cbn; [| discriminate].
  intros [= <- <-]. done.
Qed.

Lemma read_values_decoded w c (bytes : list Z) xs r :
  read_values w c bytes = Decoded (xs, r) ->
  0 <= c /\ c * Z.of_nat w <= Z.of_nat (length bytes) /\ r = drop (Z.to_nat c * w) bytes.
Proof.
  unfold read_values.
  destruct ((0 <=? c) && (c * Z.of_nat w <=? Z.of_nat (length bytes))) eqn:E;
    cbn; [| discriminate].
  apply andb_true_iff in E as [H1 H2]. apply Z.leb_le in H1, H2.
  intros [= <- <-]. done.
Qed.

Lemma read_heredocs_decoded n : forall (bytes : list Z) fs r,
  read_heredocs n bytes = Decoded (fs, r) ->
  exists pre, bytes = pre ++ r /\ records_consistent n pre.
Proof.
  induction n as [|n IH]; intros bytes fs r.
  - cbn. intros [= <- <-]. by exists [].
  - cbn [read_heredocs].
    destruct (read_value (sizeof uint32_t) bytes) as [[fl r1]|] eqn:E1; [| discriminate].
    cbn [decoded_bind fst snd].
    destruct (read_value (sizeof size_t) r1) as [[ln r2]|] eqn:E2; [| discriminate].
    cbn [decoded_bind fst snd].
    destruct (read_values (sizeof uint32_t) ln r2) as [[sn r3]|] eqn:E3; [| discriminate].
    cbn [decoded_bind fst snd].
    destruct (read_heredocs n r3) as [[tl r4]|] eqn:E4; [| discriminate].
    cbn [decoded_bind fst snd]. intros [= <- <-].
    apply read_value_decoded in E1 as (Hl1 & _ & ->).
    apply read_value_decoded in E2 as (Hl2 & -> & ->).
    apply read_values_decoded in E3 as (Hc & Hl3 & ->).
    destruct (IH _ _ _ E4) as (pre & Hpre & Hcons).
    set (b1 := drop (sizeof uint32_t) bytes) in *.
    set (b2 := drop (sizeof size_t) b1) in *.
    set (k := (Z.to_nat (le_value (take (sizeof size_t) b1)) * sizeof uint32_t)%nat) in *.
    exists (take (sizeof uint32_t) bytes ++ take (sizeof size_t) b1 ++ take k b2 ++ pre).
    split.
    + rewrite <- !app_assoc, <- Hpre. subst b1 b2. by rewrite !take_drop.
    + exists (take (sizeof uint32_t) bytes), (take (sizeof size_t) b1), (take k b2), pre.
      split; [reflexivity|].
      split; [rewrite length_take; lia|]. split; [rewrite length_take; lia|].
      split; [| exact Hcons]. rewrite length_take. subst k. lia.
Qed.

Lemma decode_layout_consistent (bytes : list Z) s :
  decode_layout bytes = Decoded s -> consistent bytes.
Proof.
  unfold decode_layout.
  destruct (read_value (sizeof size_t) bytes) as [[bc r1]|] eqn:E1; [| discriminate].
  cbn [decoded_bind fst snd].
  destruct (read_values (sizeof uint32_t) bc r1) as [[cl r2]|] eqn:E2; [| discriminate].
  cbn [decoded_bind fst snd].
  destruct (read_value (sizeof size_t) r2) as [[hc r3]|] eqn:E3; [| discriminate].
  cbn [decoded_bind fst snd].
  destruct (check _) eqn:E4; [| discriminate]. cbn [decoded_bind].
  destruct (read_heredocs (Z.to_nat hc) r3) as [[fr r4]|] eqn:E5; [| discriminate].
  intros _.
  apply read_value_decoded in E1 as (Hl1 & -> & ->).
  apply read_values_decoded in E2 as (Hc & Hl2 & ->).
  apply read_value_decoded in E3 as (Hl3 & -> & ->).
  apply check_decoded, andb_true_iff in E4 as [Hh _]. apply Z.leb_le in Hh.
  destruct (read_heredocs_decoded _ _ _ _ E5) as (pre & Hpre & Hcons).
  set (b1 := drop (sizeof size_t) bytes) in *.
  set (k := (Z.to_nat (le_value (take (sizeof size_t) bytes)) * sizeof uint32_t)%nat) in *.
  set (b2 := drop k b1) in *.
  exists (take (sizeof size_t) bytes), (take k b1), (take (sizeof size_t) b2), pre, r4.
  split.
  - rewrite <- Hpre. subst b1 b2. by rewrite !take_drop.
  - split; [rewrite length_take; lia|]. split; [rewrite length_take; subst k; lia|].
    split; [rewrite length_take; lia|]. split; [exact Hh | exact Hcons].
Qed.

Lemma read_value_app w (a rest : list Z) :
  length a = w -> read_value w (a ++ rest) = Decoded (le_value a, rest).
Proof.
  intros H. unfold read_value. rewrite length_app.
  replace (w <=? length a + length rest)%nat with true by (symmetry; apply Nat.leb_le; lia).
  cbn. by rewrite take_app_length', drop_app_length'.
Qed.

Lemma read_values_app w c (a rest : list Z) :
  Z.of_nat (length a) = c * Z.of_nat w -> (0 < w)%nat ->
  exists xs, read_values w c (a ++ rest) = Decoded (xs, rest).
Proof.
  intros H Hw. unfold read_values. rewrite length_app.
  assert (0 <= c) by nia.
  replace ((0 <=? c) && (c * Z.of_nat w <=? Z.of_nat (length a + length rest))) with true
    by (symmetry; apply andb_true_iff; split; apply Z.leb_le; lia).
  cbn. eexists. rewrite drop_app_length'; [reflexivity | nia].
Qed.

Lemma records_consistent_length n : forall (bytes : list Z),
  records_consistent n bytes ->
  (n * (sizeof uint32_t + sizeof size_t) <= length bytes)%nat.
Proof.
  induction n as [|n IH]; intros bytes; [cbn; lia|].
  intros (fl & ln & sn & tl & -> & Hfl & Hln & _ & Htl).
  rewrite !length_app. specialize (IH tl Htl). lia.
Qed.

Lemma read_heredocs_consistent n : forall (bytes rest : list Z),
  records_consistent n bytes ->
  exists fs, read_heredocs n (bytes ++ rest) = Decoded (fs, rest).
Proof.
  induction n as [|n IH]; intros bytes rest.
  - cbn. intros ->. by eexists.
  - intros (fl & ln & sn & tl & -> & Hfl & Hln & Hsn & Htl).
    cbn [read_heredocs]. rewrite <- !app_assoc.
    rewrite read_value_app by done. cbn [decoded_bind fst snd].
    rewrite read_value_app by done. cbn [decoded_bind fst snd].
    destruct (read_values_app (sizeof uint32_t) (le_value ln) sn (tl ++ rest) Hsn)
      as (xs & ->); [cbn; lia|].
    cbn [decoded_bind fst snd].
    destruct (IH tl rest Htl) as (fs & ->). cbn [decoded_bind fst snd]. by eexists.
Qed.

Lemma consistent_decode_layout (bytes : list Z) :
  consistent bytes -> exists s, decode_layout bytes = Decoded s.
Proof.
  intros (bc & cl & hc & rc & rest & -> & Hbc & Hcl & Hhc & Hh & Hrc).
  unfold decode_layout.
  rewrite read_value_app by done. cbn [decoded_bind fst snd].
  destruct (read_values_app (sizeof uint32_t) (le_value bc) cl (hc ++ rc ++ rest) Hcl)
    as (xs & ->); [cbn; lia|].
  cbn [decoded_bind fst snd].
  rewrite read_value_app by done. cbn [decoded_bind fst snd].
  pose proof (records_consistent_length _ _ Hrc) as Hlen.
  replace ((0 <=? le_value hc) &&
           (le_value hc * Z.of_nat (sizeof uint32_t + sizeof size_t)
            <=? Z.of_nat (length (rc ++ rest)))) with true
    by (symmetry; apply andb_true_iff; split; apply Z.leb_le;
        [done | rewrite length_app; lia]).
  cbn [check decoded_bind].
  destruct (read_heredocs_consistent _ rc rest Hrc) as (fs & ->).
  cbn [decoded_bind]. by eexists.
Qed.

(** The fresh state of the data model is the view of what
    [tree_sitter_raku_external_scanner_create] builds. *)
Lemma create_view (m : memory) :
  exists state m' bfs hfs,
    tree_sitter_raku_external_scanner_create m = (Returns state, m') /\
    scanner_state_wf m' state bfs hfs /\
    state_view bfs hfs = fresh_state.
Proof.
  destruct (create_wf m) as (state & m' & lb & lh & Hcreate & Hwf & _).
  by eexists state, m', _, _.
Qed.

(** ** Reachable states are well formed *)

Lemma run_and_store_wf TABLE MAX fuel ops (m : memory) :
  never_underflows 0 ops ->
  Z.of_nat (pushes ops) <= SIZE_MAX ->
  exists state m' bfs hfs,
    run_and_store TABLE MAX (S (S fuel)) ops m = (Returns state, m') /\
    scanner_state_wf m' state bfs hfs /\
    (length bfs + pops ops = 1 + pushes ops)%nat /\ length hfs = 1%nat.
Proof.
  intros Hnu Hlen.
  destruct (create_wf m) as (state & m0 & lb & lh & Hcreate & Hwf0 & _).
  destruct Hwf0 as (ls & s & -> & Hs & Hb & Hh & _).
  destruct (run_brace_ops_wf TABLE MAX fuel ops m0 (current_brace s) _ Hb Hnu)
    as (head & m1 & fs & Hrun & Hwf & Hn & Hlast & Hh1 & Hs1); [cbn [length]; lia|].
  assert (Hs' : states m1 !! ls = Some s) by (by rewrite Hs1).
  eexists (Some ls), _, fs, [(lh, zero_heredoc)]. split.
  - unfold run_and_store. rewrite (bind_returns _ _ _ _ _ Hcreate).
    rewrite (bind_returns _ _ _ _ _ (load_state_allocated _ _ _ Hs)).
    rewrite (bind_returns _ _ _ _ _ Hrun).
    rewrite (bind_returns _ _ _ _ _ (update_state_allocated _ _ _ _ Hs')).
    reflexivity.
  - split; [| split; [exact Hn | reflexivity]].
    exists ls, (set_current_brace head s).
    split; [reflexivity|]. split; [cbn; apply lookup_insert_eq|].
    split; [exact (brace_stack_wf_ext m1 _ _ _ eq_refl Hwf)|].
    split; [exact (heredoc_stack_wf_ext m0 _ _ _ Hh1 Hh)|].
    split; [by rewrite Hlast | done].
Qed.

(** ** The reading macros check nothing *)

(** A length word that declares one element, and no element after it:
    [BUF_READ_ARRAY] copies from beyond the bytes it was given. *)
Example BUF_READ_ARRAY_reads_past_the_end :
  BUF_READ_ARRAY uint32_t [1; 0; 0; 0; 0; 0; 0; 0] = (Undefined, []).
Proof. reflexivity. Qed.

(** After [BUF_READ_ARRAY] the pointer is at the first element, not
    after the last. *)
Example BUF_READ_ARRAY_stays_at_the_elements :
  BUF_READ_ARRAY uint32_t [1; 0; 0; 0; 0; 0; 0; 0; 41; 0; 0; 0]
    = (Returns [41], [41; 0; 0; 0]).
Proof. reflexivity. Qed.

(** ** The largest state that fits

    252 brace frames above the root take the whole buffer; one more does
    not fit. *)
Example serialize_fills_the_buffer :
  fst (serialize 253 (snd (deep_state 252)) (Some 1%positive)) = Returns 1024.
Proof. vm_compute. reflexivity. Qed.

Example serialize_one_frame_too_many :
  fst (serialize 254 (snd (deep_state 253)) (Some 1%positive)) = Undefined /\
  Z.of_nat (length (snd (serialize 254 (snd (deep_state 253)) (Some 1%positive)))) = 1020.
Proof. split; vm_compute; reflexivity. Qed.

(** * Statements of the specification *)

(** C5.  [brace_stack_push] on a well-formed stack returns a new top
    frame whose parent is the old top and whose depth is the parent's
    depth plus one; its closing brace is the table's entry for the
    opening character when the table registers one, and the opening
    character itself otherwise.  The call fails neither an assertion nor
    a memory access, and the stack it leaves is well formed. *)
Theorem brace_stack_push_closing_and_depth TABLE MAX (m : memory) head fs brace :
  brace_stack_wf m head fs ->
  Z.of_nat (length fs) <= SIZE_MAX ->
  is_uint32 brace ->
  (registered TABLE MAX brace -> is_uint32 (TABLE brace)) ->
  exists l f parent m',
    brace_stack_push TABLE MAX head brace m = (Returns (Some l), m') /\
    braces m !! l = None /\
    m' = with_braces m (<[l := f]> (braces m)) /\
    load_brace head m = (Returns parent, m) /\
    BraceStack.next f = head /\
    BraceStack.depth f = BraceStack.depth parent + 1 /\
    (registered TABLE MAX brace -> BraceStack.closing_brace f = TABLE brace) /\
    (~ registered TABLE MAX brace -> BraceStack.closing_brace f = brace) /\
    brace_stack_wf m' (Some l) ((l, f) :: fs).
Proof.
  intros Hwf Hlen Hbrace Htable.
  destruct (brace_stack_push_frame TABLE MAX m head fs brace Hwf Hlen)
    as (l & Hfresh & Hpush & Hwf').
  destruct Hwf as (Hne & Hc & Hok).
  destruct fs as [|[l0 f0] fs]; [done|].
  destruct Hc as (-> & Hl0 & _). destruct Hok as (Hd & _). cbn [fst snd] in *.
  eexists l, _, f0, _. split; [exact Hpush|]. split; [exact Hfresh|].
  split; [reflexivity|]. split; [by apply load_brace_allocated|].
  split; [reflexivity|]. split; [cbn [BraceStack.depth length]; lia|].
  split; [| split; [| exact Hwf']]; cbn [BraceStack.closing_brace].
  - intros Hreg. rewrite (proj2 (registered_test TABLE MAX brace) Hreg).
    apply to_uint32_small. auto.
  - intros Hreg. destruct ((brace <? MAX) && negb (TABLE brace =? 0)) eqn:E.
    + apply registered_test in E. done.
    + by apply to_uint32_small.
Qed.

Lemma brace_stack_push_closing_and_depth_witness :
  brace_stack_wf created_memory (Some 1%positive) [(1%positive, zero_brace)] /\
  is_uint32 40 /\
  exists l f parent m',
    brace_stack_push example_table example_table_max (Some 1%positive) 40 created_memory
      = (Returns (Some l), m') /\
    braces created_memory !! l = None /\
    m' = with_braces created_memory (<[l := f]> (braces created_memory)) /\
    load_brace (Some 1%positive) created_memory = (Returns parent, created_memory) /\
    BraceStack.next f = Some 1%positive /\
    BraceStack.depth f = BraceStack.depth parent + 1 /\
    (registered example_table example_table_max 40 -> BraceStack.closing_brace f = example_table 40) /\
    (~ registered example_table example_table_max 40 -> BraceStack.closing_brace f = 40) /\
    brace_stack_wf m' (Some l) [(l, f); (1%positive, zero_brace)].
Proof.
  assert (H40 : is_uint32 40) by (unfold is_uint32, UINT32_MAX; lia).
  split; [exact created_brace_stack_wf|]. split; [exact H40|].
  apply (brace_stack_push_closing_and_depth example_table example_table_max created_memory
           (Some 1%positive) [(1%positive, zero_brace)] 40 created_brace_stack_wf).
  - unfold SIZE_MAX. cbn. lia.
  - exact H40.
  - intros _. unfold is_uint32, UINT32_MAX. cbn. lia.
Defined.

(** C2, as the code has it.  On the root frame of either stack the pop
    functions fail the assertion [head->depth > 0]: the call does not
    return (the process is aborted) and the memory is as it was.  On a
    brace frame above the root, [brace_stack_pop] frees that frame and no
    other and returns its parent, the top of the well-formed stack that
    remains. *)
Theorem pop_root_asserts_else_parent fuel (m : memory) head lf fs hhead hlf :
  brace_stack_wf m head (lf :: fs) ->
  heredoc_stack_wf m hhead [hlf] ->
  (fs = [] -> brace_stack_pop fuel head m = (AssertionFailed, m)) /\
  (fs <> [] ->
     brace_stack_pop (S (S fuel)) head m =
       (Returns (BraceStack.next (snd lf)),
        with_braces m (delete (fst lf) (braces m))) /\
     brace_stack_wf (with_braces m (delete (fst lf) (braces m)))
                    (BraceStack.next (snd lf)) fs) /\
  heredoc_stack_pop fuel hhead m = (AssertionFailed, m).
Proof.
  intros Hb Hh. split; [| split].
  - intros ->. eapply brace_stack_pop_root_wf; exact Hb.
  - intros Hne. apply brace_stack_pop_wf; assumption.
  - destruct Hh as (_ & (-> & Hl & _) & (Hd & _)).
    eapply heredoc_stack_pop_root; eassumption.
Qed.

Lemma pop_root_asserts_else_parent_witness :
  brace_stack_wf example_memory (Some 3%positive) example_brace_frames /\
  heredoc_stack_wf example_memory (Some 1%positive) [(1%positive, zero_heredoc)] /\
  brace_stack_pop 2 (Some 3%positive) example_memory =
    (Returns (Some 2%positive),
     with_braces example_memory (delete 3%positive (braces example_memory))) /\
  heredoc_stack_pop 2 (Some 1%positive) example_memory = (AssertionFailed, example_memory).
Proof.
  split; [exact example_brace_stack_wf|]. split; [exact example_heredoc_root_wf|].
  destruct (pop_root_asserts_else_parent 0 example_memory (Some 3%positive)
              (3%positive, BraceStack.Frame 2 93 (Some 2%positive))
              [(2%positive, BraceStack.Frame 1 41 (Some 1%positive)); (1%positive, zero_brace)]
              (Some 1%positive) (1%positive, zero_heredoc)
              example_brace_stack_wf example_heredoc_root_wf) as (_ & Hpop & _).
  destruct (Hpop ltac:(discriminate)) as (Hret & _).
  split; [exact Hret|].
  exact (proj2 (proj2 (pop_root_asserts_else_parent 2 example_memory (Some 3%positive)
              (3%positive, BraceStack.Frame 2 93 (Some 2%positive))
              [(2%positive, BraceStack.Frame 1 41 (Some 1%positive)); (1%positive, zero_brace)]
              (Some 1%positive) (1%positive, zero_heredoc)
              example_brace_stack_wf example_heredoc_root_wf))).
Defined.

(** C2, as stated, fails on the root of a freshly created brace stack:
    the pop does not return an error value, it fails an assertion. *)
Lemma brace_stack_pop_root_no_error_value :
  fst (brace_stack_pop 2 (Some 1%positive) created_memory) = AssertionFailed /\
  ~ (exists v m', brace_stack_pop 2 (Some 1%positive) created_memory = (Returns v, m')).
Proof.
  split; [reflexivity|]. intros (v & m' & H). vm_compute in H. discriminate.
Qed.

(** C4, on the code.  [heredoc_stack_push] returns no stack: after the
    assertion on [head] the body ends without a [return], and the memory
    is as it was: no frame is allocated, the sentinel is not copied, and
    the function takes no flags. *)
Theorem heredoc_stack_push_returns_nothing (m : memory) head sentinel :
  heredoc_stack_push head sentinel m =
    (if is_null head then AssertionFailed else Undefined, m).
Proof. destruct head; reflexivity. Qed.

(** C9, on the code.  Destroying a well-formed state, the freshly
    created one included, does not return, whatever the fuel: the brace
    stack is freed when the fuel allows, and the call of
    [heredoc_stack_free] that follows calls itself on the frame it was
    given. *)
Theorem destroy_never_returns fuel (m : memory) state bfs hfs :
  scanner_state_wf m state bfs hfs ->
  fst (tree_sitter_raku_external_scanner_destroy fuel state m) = OutOfFuel.
Proof.
  intros (ls & s & -> & Hs & (Hbne & Hbc & _) & (Hhne & Hhc & _) & _).
  unfold tree_sitter_raku_external_scanner_destroy.
  rewrite (bind_returns _ _ _ tt m) by reflexivity.
  rewrite (bind_returns _ _ _ _ _ (load_state_allocated _ _ _ Hs)).
  destruct bfs as [|[lb fb] bfs]; [done|]. destruct hfs as [|[lh fh] hfs]; [done|].
  pose proof Hbc as (Hpb & _). pose proof Hhc as (Hph & Hlh & _). cbn [fst snd] in *.
  rewrite Hpb, Hph in *. cbn [is_null negb].
  rewrite (bind_returns _ _ _ tt m) by reflexivity.
  rewrite (bind_returns _ _ _ tt m) by reflexivity.
  destruct (Nat.le_gt_cases fuel (length ((lb, fb) :: bfs))) as [Hshort | Hlong].
  - by rewrite (bind_out_of_fuel _ _ _ _ (brace_stack_free_short _ m _ fuel Hbc Hshort)).
  - rewrite (bind_returns _ _ _ _ _ (brace_stack_free_chain _ m _ fuel Hbc Hlong)).
    erewrite bind_out_of_fuel; [reflexivity|].
    apply heredoc_stack_free_diverges with (f := fh); [exact Hlh|].
    exact (chain_next_not_self _ _ _ _ _ Hhc).
Qed.

Lemma destroy_never_returns_witness :
  scanner_state_wf created_memory created_state
    [(1%positive, zero_brace)] [(1%positive, zero_heredoc)] /\
  fst (tree_sitter_raku_external_scanner_destroy 1000 created_state created_memory)
    = OutOfFuel.
Proof.
  split; [exact created_state_wf|].
  exact (destroy_never_returns 1000 created_memory created_state _ _ created_state_wf).
Defined.

(** C6, as the code has it, for the brace stack.  Applied to the stack
    of a freshly created state, a sequence of pushes and pops none of
    which meets the root leaves a well-formed stack: the top frame's
    depth is the number of pushes minus the number of pops, the root
    frame is the one Create allocated, zeroed and of depth 0, and the
    depths go down by one per frame from the top to 0 at the root.  A
    sequence with a pop at the root is not run to its end: that pop fails
    an assertion, the root is not popped. *)
Theorem brace_depth_is_net_push_count TABLE MAX fuel ops (m : memory) :
  Z.of_nat (pushes ops) <= SIZE_MAX ->
  (never_underflows 0 ops ->
   exists head m' fs top root,
     run_from_create TABLE MAX (S (S fuel)) ops m = (Returns head, m') /\
     brace_stack_wf m' head fs /\
     load_brace head m' = (Returns top, m') /\
     BraceStack.depth top = Z.of_nat (pushes ops) - Z.of_nat (pops ops) /\
     last fs = Some (root, zero_brace) /\
     Z.of_nat (length fs) = Z.of_nat (pushes ops) - Z.of_nat (pops ops) + 1 /\
     (forall i lf, fs !! i = Some lf ->
        BraceStack.depth (snd lf) =
          Z.of_nat (pushes ops) - Z.of_nat (pops ops) - Z.of_nat i)) /\
  (~ never_underflows 0 ops ->
   fst (run_from_create TABLE MAX (S (S fuel)) ops m) = AssertionFailed).
Proof.
  intros Hlen.
  destruct (create_wf m) as (state & m0 & lb & lh & Hcreate & Hwf0 & _).
  destruct Hwf0 as (ls & s & -> & Hs & Hb & _).
  unfold run_from_create. rewrite (bind_returns _ _ _ _ _ Hcreate).
  rewrite (bind_returns _ _ _ _ _ (load_state_allocated _ _ _ Hs)).
  split.
  - intros Hnu.
    destruct (run_brace_ops_wf TABLE MAX fuel ops m0 (current_brace s) _ Hb Hnu)
      as (head & m' & fs & Hrun & Hwf & Hn & Hlast & _); [cbn [length]; lia|].
    cbn [length] in Hn. cbn [last] in Hlast.
    destruct (brace_top_depth _ _ _ Hwf) as (l & top & -> & Hl & Hd).
    rewrite length_non_root in Hd.
    pose proof Hwf as (Hne & _ & Hok).
    assert (0 < length fs)%nat by (destruct fs; [done | cbn; lia]).
    exists (Some l), m', fs, top, lb. split; [exact Hrun|]. split; [exact Hwf|].
    split; [by apply load_brace_allocated|]. split; [lia|].
    split; [exact Hlast|]. split; [lia|].
    intros i lf Hi. rewrite (brace_frames_ok_depth fs i lf Hok Hi). lia.
  - intros Hnu.
    apply (run_brace_ops_underflow TABLE MAX fuel ops m0 (current_brace s) _ Hb Hnu).
    cbn [length]. lia.
Qed.

Lemma brace_depth_is_net_push_count_witness :
  Z.of_nat (pushes [Push 40; Push 91; Pop]) <= SIZE_MAX /\
  never_underflows 0 [Push 40; Push 91; Pop] /\
  exists head m' fs top root,
    run_from_create example_table example_table_max 2 [Push 40; Push 91; Pop] empty_memory
      = (Returns head, m') /\
    brace_stack_wf m' head fs /\
    load_brace head m' = (Returns top, m') /\
    BraceStack.depth top = 1 /\
    last fs = Some (root, zero_brace) /\
    Z.of_nat (length fs) = 2 /\
    (forall i lf, fs !! i = Some lf -> BraceStack.depth (snd lf) = 1 - Z.of_nat i).
Proof.
  assert (Hlen : Z.of_nat (pushes [Push 40; Push 91; Pop]) <= SIZE_MAX)
    by (unfold SIZE_MAX; cbn; lia).
  split; [exact Hlen|]. split; [exact I|].
  exact (proj1 (brace_depth_is_net_push_count example_table example_table_max 0
                  [Push 40; Push 91; Pop] empty_memory Hlen) I).
Defined.

(** C6, as stated, fails for the sequence that pops once: the run does
    not end with a stack of depth 0, it fails an assertion. *)
Lemma pop_on_fresh_state_aborts :
  fst (run_from_create example_table example_table_max 2 [Pop] empty_memory)
    = AssertionFailed /\
  ~ (exists head m',
       run_from_create example_table example_table_max 2 [Pop] empty_memory
         = (Returns head, m')).
Proof.
  split; [reflexivity|]. intros (head & m' & H). vm_compute in H. discriminate.
Qed.



(** C3, on the code.  The serialiser compares [head - buffer] with the
    capacity only after the stores.  When the encoding fits, the call
    returns the number of bytes it has stored, which is at most the
    capacity.  When it does not fit, nothing stops the store that ends
    beyond the buffer: the call does not return, no assertion fails and
    no error value comes back; its behaviour is undefined, with the first
    bytes of the encoding stored. *)
Theorem serialize_stores_before_it_checks fuel (m : memory) state bfs hfs :
  scanner_state_wf m state bfs hfs ->
  (length bfs <= fuel)%nat -> (length hfs <= fuel)%nat ->
  (encoded_size bfs hfs <= TREE_SITTER_SERIALIZATION_BUFFER_SIZE ->
   exists n bytes,
     serialize fuel m state = (Returns n, bytes) /\
     n = Z.of_nat (length bytes) /\ n = encoded_size bfs hfs /\
     n <= TREE_SITTER_SERIALIZATION_BUFFER_SIZE) /\
  (TREE_SITTER_SERIALIZATION_BUFFER_SIZE < encoded_size bfs hfs ->
   exists stored rest,
     serialize fuel m state = (Undefined, stored) /\
     brace_section bfs ++ heredoc_section hfs = stored ++ rest).
Proof.
  intros Hwf Hfb Hfh. split.
  - intros Hfit. rewrite (serialize_fits fuel m state bfs hfs Hwf Hfb Hfh Hfit).
    eexists _, _. split; [reflexivity|]. split; [reflexivity|]. split; [reflexivity | done].
  - intros Hover.
    destruct (serialize_overflows fuel m state bfs hfs Hwf Hfb Hfh Hover)
      as (stored & rest & E & Hsplit & _).
    by exists stored, rest.
Qed.

(** The state reached by 253 pushes: its encoding takes 1028 bytes. *)
Lemma serialize_stores_before_it_checks_witness :
  never_underflows 0 (replicate 253 (Push 40)) /\
  exists state m' stored,
    deep_state 253 = (Returns state, m') /\
    serialize 254 m' state = (Undefined, stored).
Proof.
  assert (Hnu : never_underflows 0 (replicate 253 (Push 40))) by (vm_compute; exact I).
  assert (Hpushes : pushes (replicate 253 (Push 40)) = 253%nat) by (vm_compute; reflexivity).
  assert (Hpops : pops (replicate 253 (Push 40)) = 0%nat) by (vm_compute; reflexivity).
  split; [exact Hnu|].
  destruct (run_and_store_wf example_table example_table_max 0 (replicate 253 (Push 40))
              empty_memory Hnu ltac:(rewrite Hpushes; unfold SIZE_MAX; lia))
    as (state & m' & bfs & hfs & Hrun & Hwf & Hlen & Hh).
  rewrite Hpushes, Hpops in Hlen.
  destruct (proj2 (serialize_stores_before_it_checks 254 m' state bfs hfs Hwf
                     ltac:(lia) ltac:(lia)))
    as (stored & rest & E & _).
  - rewrite encoded_size_formula, !length_non_root.
    unfold TREE_SITTER_SERIALIZATION_BUFFER_SIZE. lia.
  - exists state, m', stored. split; [exact Hrun | exact E].
Defined.

(** C1, as the code has it.  For a well-formed state whose encoding
    fits the buffer, the serialiser returns, and decoding the bytes it
    has stored gives back both stacks: the same frames in the same order,
    with the same depths, closing braces, sentinels and flags words. *)
Theorem serialize_deserialize_round_trip fuel (m : memory) state bfs hfs :
  scanner_state_wf m state bfs hfs ->
  (length bfs <= fuel)%nat -> (length hfs <= fuel)%nat ->
  encoded_size bfs hfs <= TREE_SITTER_SERIALIZATION_BUFFER_SIZE ->
  exists n bytes,
    serialize fuel m state = (Returns n, bytes) /\
    deserialize bytes = Decoded (state_view bfs hfs).
Proof.
  intros Hwf Hfb Hfh Hfit.
  rewrite (serialize_fits fuel m state bfs hfs Hwf Hfb Hfh Hfit).
  eexists _, _. split; [reflexivity|].
  destruct Hwf as (_ & _ & _ & _ & (_ & _ & Hb) & (_ & _ & Hh) & Hroots).
  by apply deserialize_sections.
Qed.

Lemma serialize_deserialize_round_trip_witness :
  scanner_state_wf example_memory (Some 1%positive)
    example_brace_frames example_heredoc_frames /\
  encoded_size example_brace_frames example_heredoc_frames
    <= TREE_SITTER_SERIALIZATION_BUFFER_SIZE /\
  exists n bytes,
    serialize 3 example_memory (Some 1%positive) = (Returns n, bytes) /\
    deserialize bytes =
      Decoded {| brace_frames :=
                   [ {| bf_depth := 2; bf_closing_delimiter := 93 |};
                     {| bf_depth := 1; bf_closing_delimiter := 41 |};
                     {| bf_depth := 0; bf_closing_delimiter := 0 |} ];
                 heredoc_frames :=
                   [ {| hf_depth := 1; hf_sentinel := [69; 78; 68]; hf_interp_flags := 2 |};
                     {| hf_depth := 0; hf_sentinel := []; hf_interp_flags := 0 |} ] |}.
Proof.
  assert (Hfit : encoded_size example_brace_frames example_heredoc_frames
                 <= TREE_SITTER_SERIALIZATION_BUFFER_SIZE) by (vm_compute; discriminate).
  split; [exact example_state_wf|]. split; [exact Hfit|].
  exact (serialize_deserialize_round_trip 3 example_memory (Some 1%positive)
           example_brace_frames example_heredoc_frames example_state_wf
           ltac:(cbn; lia) ltac:(cbn; lia) Hfit).
Defined.

(** C1, as stated, fails on the state reached by 253 pushes: its
    encoding takes 1028 bytes, the serialiser runs into a store beyond
    the buffer and does not return, so there are no bytes to decode. *)
Lemma deep_state_is_not_serialized :
  fst (deep_state 253) = Returns (Some 1%positive) /\
  fst (serialize 254 (snd (deep_state 253)) (Some 1%positive)) = Undefined /\
  ~ (exists n bytes,
       serialize 254 (snd (deep_state 253)) (Some 1%positive) = (Returns n, bytes)).
Proof.
  split; [vm_compute; reflexivity|].
  assert (H : fst (serialize 254 (snd (deep_state 253)) (Some 1%positive)) = Undefined)
    by (vm_compute; reflexivity).
  exact (conj H (undefined_not_returns _ H)).
Qed.

(** C7.  With a pair table that registers [')'] (41) for ['('] (40): from
    a fresh state, pushing ['('], pushing ['['] and popping once leaves a
    brace stack of depth 1 whose top closing brace is [')'], above the
    root.  The serialiser returns on the state holding it, and decoding
    its bytes gives a brace stack of depth 1 with the one closing
    delimiter [')'] and a heredoc stack that is a lone root. *)
Theorem scenario_round_trip TABLE MAX fuel (m : memory) :
  TABLE 40 = 41 -> 40 < MAX ->
  exists state m' bfs hfs n bytes,
    scenario TABLE MAX (S (S fuel)) m = (Returns state, m') /\
    scanner_state_wf m' state bfs hfs /\
    brace_view bfs =
      [ {| bf_depth := 1; bf_closing_delimiter := 41 |};
        {| bf_depth := 0; bf_closing_delimiter := 0 |} ] /\
    serialize (S (S fuel)) m' state = (Returns n, bytes) /\
    deserialize bytes =
      Decoded {| brace_frames :=
                   [ {| bf_depth := 1; bf_closing_delimiter := 41 |};
                     {| bf_depth := 0; bf_closing_delimiter := 0 |} ];
                 heredoc_frames :=
                   [ {| hf_depth := 0; hf_sentinel := []; hf_interp_flags := 0 |} ] |}.
Proof.
  intros Htable Hmax.
  destruct (create_wf m) as (state & m0 & lb & lh & Hcreate & Hwf0 & _).
  destruct Hwf0 as (ls & s & -> & Hs & Hb0 & Hh0 & _).
  destruct (brace_stack_push_frame TABLE MAX m0 _ _ 40 Hb0) as (l1 & _ & Hpush1 & Hb1);
    [unfold SIZE_MAX; cbn; lia|].
  replace ((40 <? MAX) && negb (TABLE 40 =? 0)) with true in Hpush1, Hb1
    by (symmetry; apply registered_test; split; [done | lia]).
  rewrite Htable in Hpush1, Hb1. change (to_uint32 41) with 41 in Hpush1, Hb1.
  cbn [length] in Hpush1, Hb1.
  set (f1 := BraceStack.Frame (Z.of_nat 1) 41 (current_brace s)) in *.
  set (m1 := with_braces m0 (<[l1 := f1]> (braces m0))) in *.
  destruct (brace_stack_push_frame TABLE MAX m1 _ _ 91 Hb1) as (l2 & _ & Hpush2 & Hb2);
    [unfold SIZE_MAX; cbn; lia|].
  cbn zeta in Hpush2, Hb2.
  match type of Hb2 with brace_stack_wf ?mm _ ((_, ?ff) :: _) =>
    set (f2 := ff) in *; set (m2 := mm) in * end.
  destruct (brace_stack_pop_wf fuel m2 (Some l2) (l2, f2) _ Hb2) as (Hpop & Hb3); [done|].
  cbn [fst snd] in Hpop, Hb3. change (BraceStack.next f2) with (Some l1) in Hpop, Hb3.
  set (m3 := with_braces m2 (delete l2 (braces m2))) in *.
  assert (Hs3 : states m3 !! ls = Some s) by exact Hs.
  set (m4 := with_states m3 (<[ls := set_current_brace (Some l1) s]> (states m3))).
  assert (Hscenario : scenario TABLE MAX (S (S fuel)) m = (Returns (Some ls), m4)).
  { unfold scenario. rewrite (bind_returns _ _ _ _ _ Hcreate).
    rewrite (bind_returns _ _ _ _ _ (load_state_allocated _ _ _ Hs)).
    rewrite (bind_returns _ _ _ _ _ Hpush1).
    rewrite (bind_returns _ _ _ _ _ Hpush2).
    rewrite (bind_returns _ _ _ _ _ Hpop).
    rewrite (bind_returns _ _ _ _ _ (update_state_allocated _ _ _ _ Hs3)).
    reflexivity. }
  assert (Hwf4 : scanner_state_wf m4 (Some ls)
                   [(l1, f1); (lb, zero_brace)] [(lh, zero_heredoc)]).
  { exists ls, (set_current_brace (Some l1) s).
    split; [reflexivity|]. split; [cbn; apply lookup_insert_eq|].
    split; [exact (brace_stack_wf_ext m3 m4 _ _ eq_refl Hb3)|].
    split; [exact (heredoc_stack_wf_ext m0 m4 _ _ eq_refl Hh0) | done]. }
  pose proof (serialize_fits (S (S fuel)) m4 (Some ls) _ _ Hwf4
                ltac:(cbn; lia) ltac:(cbn; lia)
                ltac:(change (encoded_size [(l1, f1); (lb, zero_brace)] [(lh, zero_heredoc)])
                        with 20; done)) as Hser.
  eexists (Some ls), m4, [(l1, f1); (lb, zero_brace)], [(lh, zero_heredoc)], _, _.
  split; [exact Hscenario|]. split; [exact Hwf4|]. split; [reflexivity|].
  split; [exact Hser|].
  destruct Hwf4 as (_ & _ & _ & _ & (_ & _ & Hok1) & (_ & _ & Hok2) & Hroots).
  exact (deserialize_sections _ _ Hok1 Hok2 Hroots).
Qed.

Lemma scenario_round_trip_witness :
  example_table 40 = 41 /\ 40 < example_table_max /\
  exists state m' bfs hfs n bytes,
    scenario example_table example_table_max 2 empty_memory = (Returns state, m') /\
    scanner_state_wf m' state bfs hfs /\
    brace_view bfs =
      [ {| bf_depth := 1; bf_closing_delimiter := 41 |};
        {| bf_depth := 0; bf_closing_delimiter := 0 |} ] /\
    serialize 2 m' state = (Returns n, bytes) /\
    deserialize bytes =
      Decoded {| brace_frames :=
                   [ {| bf_depth := 1; bf_closing_delimiter := 41 |};
                     {| bf_depth := 0; bf_closing_delimiter := 0 |} ];
                 heredoc_frames :=
                   [ {| hf_depth := 0; hf_sentinel := []; hf_interp_flags := 0 |} ] |}.
Proof.
  split; [reflexivity|]. split; [reflexivity|].
  exact (scenario_round_trip example_table example_table_max 0 empty_memory
           eq_refl eq_refl).
Defined.

(** C8.  Decoding a slice of length 0 gives the state that Create
    builds.  A slice of another length that does not hold what its counts
    and lengths declare is refused with [DeserializationCorruption]; the
    decoder then has taken no byte beyond the slice, since a slice it
    accepts holds every byte it has read. *)
Theorem deserialize_fresh_or_validated (bytes : list Z) :
  (bytes = [] ->
   deserialize bytes = Decoded fresh_state /\
   forall m, exists state m' bfs hfs,
     tree_sitter_raku_external_scanner_create m = (Returns state, m') /\
     scanner_state_wf m' state bfs hfs /\
     state_view bfs hfs = fresh_state) /\
  (bytes <> [] -> ~ consistent bytes -> deserialize bytes = DeserializationCorruption) /\
  (bytes <> [] -> forall s, deserialize bytes = Decoded s -> consistent bytes).
Proof.
  split; [| split].
  - intros ->. split; [reflexivity | exact create_view].
  - intros Hne Hinc. rewrite deserialize_nonempty by done.
    destruct (decode_layout bytes) as [s|] eqn:E; [| reflexivity].
    contradict Hinc. eapply decode_layout_consistent; exact E.
  - intros Hne s. rewrite deserialize_nonempty by done. apply decode_layout_consistent.
Qed.

Lemma truncated_slice_inconsistent : ~ consistent [1; 0; 0; 0; 0; 0; 0; 0].
Proof.
  intros H. apply consistent_decode_layout in H as (s & H). vm_compute in H. discriminate.
Qed.

Lemma deserialize_fresh_or_validated_witness :
  [1; 0; 0; 0; 0; 0; 0; 0] <> [] /\
  ~ consistent [1; 0; 0; 0; 0; 0; 0; 0] /\
  deserialize [1; 0; 0; 0; 0; 0; 0; 0] = DeserializationCorruption /\
  deserialize [] = Decoded fresh_state.
Proof.
  assert (Hne : [1; 0; 0; 0; 0; 0; 0; 0] <> []) by discriminate.
  split; [exact Hne|]. split; [exact truncated_slice_inconsistent|].
  split.
  - exact (proj1 (proj2 (deserialize_fresh_or_validated [1; 0; 0; 0; 0; 0; 0; 0]))
             Hne truncated_slice_inconsistent).
  - exact (proj1 (proj1 (deserialize_fresh_or_validated []) eq_refl)).
Defined.

(** * Further properties of the code *)

(** ** Heaps with a stack removed *)

Lemma lookup_foldr_delete {F : Type} (heap : gmap positive F) (ls : list positive) k :
  foldr delete heap ls !! k = if decide (k ∈ ls) then None else heap !! k.
Proof.
  induction ls as [|l ls IH]; cbn [foldr].
  - destruct (decide (k ∈ [])) as [H|]; [by apply not_elem_of_nil in H | done].
  - destruct (decide (k = l)) as [->|Hne].
    + rewrite lookup_delete_eq. destruct (decide (l ∈ l :: ls)) as [|H]; [done|].
      exfalso. apply H. left.
    + rewrite lookup_delete_ne by done. rewrite IH.
      destruct (decide (k ∈ ls)), (decide (k ∈ l :: ls)) as [H|H]; try done.
      * exfalso. apply H. by right.
      * apply elem_of_cons in H as [?|?]; done.
Qed.

Lemma heap_without_pushed {F : Type} (heap : gmap positive F) (ls : list positive) l f :
  heap !! l = None ->
  foldr delete (<[l := f]> heap) (l :: ls) = foldr delete heap ls.
Proof.
  intros Hl. apply map_eq. intros k. rewrite !lookup_foldr_delete.
  destruct (decide (k ∈ l :: ls)) as [H|H], (decide (k ∈ ls)) as [H'|H']; try done.
  - apply elem_of_cons in H as [->|?]; done.
  - exfalso. apply H. by right.
  - rewrite lookup_insert_ne; [done|]. intros ->. apply H. left.
Qed.

Lemma heap_without_popped {F : Type} (heap : gmap positive F) (ls : list positive) l :
  foldr delete (delete l heap) ls = foldr delete heap (l :: ls).
Proof.
  apply map_eq. intros k. rewrite !lookup_foldr_delete.
  destruct (decide (k ∈ ls)) as [H'|H'], (decide (k ∈ l :: ls)) as [H|H]; try done.
  - exfalso. apply H. by right.
  - apply elem_of_cons in H as [->|?]; [apply lookup_delete_eq | done].
  - rewrite lookup_delete_ne; [done|]. intros ->. apply H. left.
Qed.

Lemma ptr_eqb_refl (p : ptr) : ptr_eqb p p = true.
Proof. destruct p; cbn; [apply Pos.eqb_refl | done]. Qed.

(** ** Freeing *)

(** X1.  On a chain of frames that ends in a null pointer,
    [brace_stack_free] returns once it has fuel for every frame and the
    null pointer.  It has then freed the frames of the chain and no
    other: every other brace frame is as it was, and so are the heredoc
    frames and the states. *)
Theorem brace_stack_free_frees_the_chain fuel (m : memory) p fs :
  brace_chain m p fs ->
  (length fs < fuel)%nat ->
  exists m',
    brace_stack_free fuel p m = (Returns tt, m') /\
    heredocs m' = heredocs m /\ states m' = states m /\
    forall l, braces m' !! l = if decide (l ∈ fs.*1) then None else braces m !! l.
Proof.
  intros Hc Hfuel. eexists. split; [apply brace_stack_free_chain; eassumption|].
  split; [reflexivity|]. split; [reflexivity|].
  intros l. cbn [braces with_braces]. apply lookup_foldr_delete.
Qed.

Lemma brace_stack_free_frees_the_chain_witness :
  brace_chain example_memory (Some 3%positive) example_brace_frames /\
  exists m',
    brace_stack_free 4 (Some 3%positive) example_memory = (Returns tt, m') /\
    heredocs m' = heredocs example_memory /\ states m' = states example_memory /\
    forall l, braces m' !! l =
              if decide (l ∈ example_brace_frames.*1) then None else braces example_memory !! l.
Proof.
  assert (Hc : brace_chain example_memory (Some 3%positive) example_brace_frames)
    by exact (proj1 (proj2 example_brace_stack_wf)).
  split; [exact Hc|].
  exact (brace_stack_free_frees_the_chain 4 example_memory (Some 3%positive)
           example_brace_frames Hc ltac:(cbn; lia)).
Defined.

(** X2.  The assertion [head->next != head] of [brace_stack_free]
    catches a frame that is its own [next], and nothing longer: on any
    set of allocated frames closed under [next] in which no frame is its
    own [next] (a cycle of two frames or more, or a chain leading into
    one) the recursion never returns, and no frame is freed. *)
Theorem brace_stack_free_misses_longer_cycles (m : memory) (cycle : positive -> Prop) :
  (forall l, cycle l ->
     exists f l', braces m !! l = Some f /\ BraceStack.next f = Some l' /\
                  l' <> l /\ cycle l') ->
  (forall fuel l, cycle l -> brace_stack_free fuel (Some l) m = (OutOfFuel, m)) /\
  (forall fuel l f, braces m !! l = Some f -> BraceStack.next f = Some l ->
     brace_stack_free (S fuel) (Some l) m = (AssertionFailed, m)).
Proof.
  intros Hcyc. split.
  - intros fuel. induction fuel as [|fuel IH]; intros l Hl; [reflexivity|].
    destruct (Hcyc l Hl) as (f & l' & Hf & Hn & Hne & Hl').
    cbn [brace_stack_free is_null].
    rewrite (bind_returns _ _ _ _ _ (load_brace_allocated _ _ _ Hf)).
    rewrite Hn, (ptr_eqb_neq (Some l') l) by congruence. cbn [negb].
    rewrite (bind_returns _ _ _ tt m) by reflexivity.
    apply bind_out_of_fuel. by apply IH.
  - intros fuel l f Hf Hn. cbn [brace_stack_free is_null].
    rewrite (bind_returns _ _ _ _ _ (load_brace_allocated _ _ _ Hf)).
    rewrite Hn, ptr_eqb_refl. reflexivity.
Qed.

Lemma cyclic_memory_closed :
  forall l, (l = 1%positive \/ l = 2%positive) ->
    exists f l', braces cyclic_memory !! l = Some f /\ BraceStack.next f = Some l' /\
                 l' <> l /\ (l' = 1%positive \/ l' = 2%positive).
Proof.
  intros l [-> | ->].
  - exists (BraceStack.Frame 1 41 (Some 2%positive)), 2%positive.
    split; [reflexivity|]. split; [reflexivity|]. split; [discriminate | by right].
  - exists (BraceStack.Frame 2 93 (Some 1%positive)), 1%positive.
    split; [reflexivity|]. split; [reflexivity|]. split; [discriminate | by left].
Qed.

Lemma brace_stack_free_misses_longer_cycles_witness :
  brace_stack_free 1000 (Some 1%positive) cyclic_memory = (OutOfFuel, cyclic_memory).
Proof.
  exact (proj1 (brace_stack_free_misses_longer_cycles cyclic_memory
                  (fun l => l = 1%positive \/ l = 2%positive) cyclic_memory_closed)
           1000%nat 1%positive (or_introl eq_refl)).
Defined.

(** X3.  [heredoc_stack_free] frees nothing, whatever it is given: the
    memory it leaves is the memory it found.  It returns on a null
    pointer and on nothing else. *)
Theorem heredoc_stack_free_never_frees fuel (m : memory) p :
  snd (heredoc_stack_free fuel p m) = m /\
  (fst (heredoc_stack_free fuel p m) = Returns tt <-> p = NULL /\ fuel <> O).
Proof.
  induction fuel as [|fuel [IHm IHr]].
  - cbn. split; [done|]. split; [discriminate | by intros [_ ?]].
  - destruct p as [l|].
    + assert (Hno : forall (o : outcome unit),
                o <> Returns tt ->
                snd (o, m) = m /\ (fst (o, m) = Returns tt <-> Some l = NULL /\ S fuel <> O)).
      { intros o Ho. split; [done|]. split; [done | intros [? _]; discriminate]. }
      cbn [heredoc_stack_free is_null]. unfold bind, load_heredoc.
      destruct (heredocs m !! l) as [h|]; [| by apply Hno].
      unfold assert. destruct (negb (ptr_eqb (HeredocStack.next h) (Some l))); [| by apply Hno].
      destruct (heredoc_stack_free fuel (Some l) m) as [[[]| | |] m1]; cbn in IHm, IHr; subst m1;
        try (by apply Hno).
      destruct (proj1 IHr eq_refl) as [? _]. discriminate.
    + cbn. split; [done|]. split; [intros _; split; [done | discriminate] | done].
Qed.

(** X4.  [heredoc_stack_pop] on a frame above the root does not return:
    it sets the frame's [next] to null and enters [heredoc_stack_free].
    The frame is left allocated and detached from its parent; nothing is
    freed. *)
Theorem heredoc_stack_pop_detaches_and_hangs fuel (m : memory) l f l' :
  heredocs m !! l = Some f -> 0 < HeredocStack.depth f -> HeredocStack.next f = Some l' ->
  heredoc_stack_pop fuel (Some l) m =
    (OutOfFuel, with_heredocs m (<[l := set_heredoc_next NULL f]> (heredocs m))).
Proof.
  intros Hl Hd Hn. unfold heredoc_stack_pop.
  rewrite (bind_returns _ _ _ tt m) by reflexivity.
  rewrite (bind_returns _ _ _ _ _ (load_heredoc_allocated _ _ _ Hl)).
  rewrite (bind_returns _ _ _ tt m)
    by (unfold assert; destruct (Z.gtb_spec (HeredocStack.depth f) 0); [done | lia]).
  rewrite Hn. rewrite (bind_returns _ _ _ tt m) by reflexivity.
  rewrite (bind_returns _ _ _ _ _ (update_heredoc_allocated _ _ _ _ Hl)).
  apply bind_out_of_fuel.
  apply heredoc_stack_free_diverges with (f := set_heredoc_next NULL f);
    [cbn; apply lookup_insert_eq | done].
Qed.

Lemma heredoc_stack_pop_detaches_and_hangs_witness :
  heredocs example_memory !! 2%positive
    = Some (HeredocStack.Frame 1 [69; 78; 68] 3 2 (Some 1%positive)) /\
  heredoc_stack_pop 1000 (Some 2%positive) example_memory =
    (OutOfFuel,
     with_heredocs example_memory
       (<[2%positive := HeredocStack.Frame 1 [69; 78; 68] 3 2 NULL]>
          (heredocs example_memory))).
Proof.
  split; [reflexivity|].
  exact (heredoc_stack_pop_detaches_and_hangs 1000 example_memory 2%positive
           (HeredocStack.Frame 1 [69; 78; 68] 3 2 (Some 1%positive)) 1%positive
           eq_refl ltac:(cbn; lia) eq_refl).
Defined.

(** ** Pushes and pops that cancel *)

(** X5.  A push followed by a pop gives back the stack pointer it
    started from and the memory it started from: the frame the push
    allocated is the frame the pop frees, and nothing else has
    changed. *)
Theorem brace_push_then_pop_restores TABLE MAX fuel (m : memory) l0 f0 brace :
  braces m !! l0 = Some f0 ->
  0 <= BraceStack.depth f0 < SIZE_MAX ->
  exists l m1,
    brace_stack_push TABLE MAX (Some l0) brace m = (Returns (Some l), m1) /\
    braces m !! l = None /\
    brace_stack_pop (S (S fuel)) (Some l) m1 = (Returns (Some l0), m).
Proof.
  intros Hl0 Hd.
  pose proof (fresh_brace_unallocated m) as Hfresh.
  eexists _, _. split; [apply brace_stack_push_returns; exact Hl0|].
  split; [exact Hfresh|].
  erewrite brace_stack_pop_returns; [| cbn; apply lookup_insert_eq | | reflexivity].
  - unfold with_braces; cbn. rewrite delete_insert_id by exact Hfresh. by destruct m.
  - cbn. rewrite to_size_t_small; [lia|]. unfold is_size_t. lia.
Qed.

Lemma brace_push_then_pop_restores_witness :
  braces created_memory !! 1%positive = Some zero_brace /\
  exists l m1,
    brace_stack_push example_table example_table_max (Some 1%positive) 91 created_memory
      = (Returns (Some l), m1) /\
    braces created_memory !! l = None /\
    brace_stack_pop 2 (Some l) m1 = (Returns (Some 1%positive), created_memory).
Proof.
  split; [reflexivity|].
  exact (brace_push_then_pop_restores example_table example_table_max 0 created_memory
           1%positive zero_brace 91 eq_refl ltac:(unfold SIZE_MAX; cbn; lia)).
Defined.

Lemma run_brace_ops_app TABLE MAX fuel ops1 : forall ops2 head (m : memory),
  run_brace_ops TABLE MAX fuel (ops1 ++ ops2) head m =
  bind (run_brace_ops TABLE MAX fuel ops1 head) (run_brace_ops TABLE MAX fuel ops2) m.
Proof.
  induction ops1 as [|[c|] ops1 IH]; intros ops2 head m.
  - reflexivity.
  - cbn [app run_brace_ops]. unfold bind.
    destruct (brace_stack_push TABLE MAX head c m) as [[h| | |] m1]; try reflexivity.
    rewrite IH. reflexivity.
  - cbn [app run_brace_ops]. unfold bind.
    destruct (brace_stack_pop fuel head m) as [[h| | |] m1]; try reflexivity.
    rewrite IH. reflexivity.
Qed.

Lemma pushes_app ops1 ops2 : pushes (ops1 ++ ops2) = (pushes ops1 + pushes ops2)%nat.
Proof. induction ops1 as [|[c|] ops1 IH]; cbn; lia. Qed.

(** X6.  A balanced sequence of pushes and pops, nested to any depth,
    gives back the stack pointer and the memory it started from: the
    frames beneath are never touched, and every frame pushed has been
    freed. *)
Theorem balanced_run_restores TABLE MAX fuel ops (m : memory) l0 f0 :
  balanced ops ->
  braces m !! l0 = Some f0 ->
  0 <= BraceStack.depth f0 ->
  BraceStack.depth f0 + Z.of_nat (pushes ops) <= SIZE_MAX ->
  run_brace_ops TABLE MAX (S (S fuel)) ops (Some l0) m = (Returns (Some l0), m).
Proof.
  intros Hbal. revert m l0 f0.
  induction Hbal as [|c inner rest Hin IHin Hrest IHrest]; intros m l0 f0 Hl0 Hd Hlen.
  - reflexivity.
  - cbn [pushes] in Hlen. rewrite pushes_app in Hlen. cbn [pushes] in Hlen.
    pose proof (brace_stack_push_returns TABLE MAX m l0 f0 c Hl0) as Hpush.
    pose proof (fresh_brace_unallocated m) as Hfresh.
    set (l := fresh (dom (braces m))) in *.
    set (f := BraceStack.Frame (to_size_t (BraceStack.depth f0 + 1))
                (if (c <? MAX) && negb (TABLE c =? 0)
                 then to_uint32 (TABLE c) else to_uint32 c) (Some l0)) in *.
    set (m1 := with_braces m (<[l := f]> (braces m))) in *.
    assert (Hdf : BraceStack.depth f = BraceStack.depth f0 + 1)
      by (cbn; apply to_size_t_small; unfold is_size_t; lia).
    assert (Hl : braces m1 !! l = Some f) by (cbn; apply lookup_insert_eq).
    cbn [run_brace_ops]. rewrite (bind_returns _ _ _ _ _ Hpush).
    rewrite run_brace_ops_app.
    rewrite (bind_returns _ _ _ _ _ (IHin m1 l f Hl ltac:(lia) ltac:(lia))).
    cbn [run_brace_ops].
    assert (Hpop : brace_stack_pop (S (S fuel)) (Some l) m1 = (Returns (Some l0), m)).
    { erewrite brace_stack_pop_returns; [| exact Hl | lia | reflexivity].
      unfold m1, with_braces; cbn. rewrite delete_insert_id by exact Hfresh. by destruct m. }
    rewrite (bind_returns _ _ _ _ _ Hpop).
    apply (IHrest m l0 f0 Hl0 Hd). lia.
Qed.

Lemma three_brackets_balanced :
  balanced [Push 91; Push 91; Push 91; Pop; Pop; Pop].
Proof.
  apply (balanced_nest 91 [Push 91; Push 91; Pop; Pop] []); [| constructor].
  apply (balanced_nest 91 [Push 91; Pop] []); [| constructor].
  apply (balanced_nest 91 [] []); constructor.
Qed.

Lemma balanced_run_restores_witness :
  balanced [Push 91; Push 91; Push 91; Pop; Pop; Pop] /\
  braces created_memory !! 1%positive = Some zero_brace /\
  run_brace_ops example_table example_table_max 2
    [Push 91; Push 91; Push 91; Pop; Pop; Pop] (Some 1%positive) created_memory
    = (Returns (Some 1%positive), created_memory).
Proof.
  split; [exact three_brackets_balanced|]. split; [reflexivity|].
  exact (balanced_run_restores example_table example_table_max 0
           [Push 91; Push 91; Push 91; Pop; Pop; Pop] created_memory 1%positive zero_brace
           three_brackets_balanced eq_refl ltac:(cbn; lia) ltac:(unfold SIZE_MAX; cbn; lia)).
Defined.

(** ** The brace stack against its list model *)

Lemma closings_cons lf fs :
  fs <> [] -> closings (lf :: fs) = BraceStack.closing_brace (snd lf) :: closings fs.
Proof. destruct fs; [done | reflexivity]. Qed.

Lemma length_closings fs : length (closings fs) = (length fs - 1)%nat.
Proof. unfold closings. by rewrite length_map, length_non_root. Qed.

Section RunsAsLists.
Variable BRACE_TABLE : Z -> Z.
Variable BACE_TABLE_MAX : Z.

(** A run on the heap and the same run on the list of closing braces
    agree, and the heap without the stack is the same before and
    after. *)
Lemma run_brace_ops_closings fuel ops : forall (m : memory) head fs,
  brace_stack_wf m head fs ->
  Z.of_nat (length fs + pushes ops) <= SIZE_MAX + 1 ->
  match closings_after BRACE_TABLE BACE_TABLE_MAX ops (closings fs) with
  | Some cs =>
      exists head' m' fs',
        run_brace_ops BRACE_TABLE BACE_TABLE_MAX (S (S fuel)) ops head m = (Returns head', m') /\
        brace_stack_wf m' head' fs' /\
        closings fs' = cs /\
        last fs' = last fs /\
        heredocs m' = heredocs m /\ states m' = states m /\
        foldr delete (braces m') fs'.*1 = foldr delete (braces m) fs.*1
  | None =>
      fst (run_brace_ops BRACE_TABLE BACE_TABLE_MAX (S (S fuel)) ops head m) = AssertionFailed
  end.
Proof.
  induction ops as [|[c|] ops IH]; intros m head fs Hwf Hlen.
  - cbn. by exists head, m, fs.
  - cbn [closings_after run_brace_ops]. cbn [pushes] in Hlen.
    destruct (brace_stack_push_frame BRACE_TABLE BACE_TABLE_MAX m head fs c Hwf)
      as (l & Hfresh & Hpush & Hwf1); [lia|].
    cbn zeta in Hpush, Hwf1. fold (closing_for BRACE_TABLE BACE_TABLE_MAX c) in Hpush, Hwf1.
    set (f := BraceStack.Frame (Z.of_nat (length fs))
                               (closing_for BRACE_TABLE BACE_TABLE_MAX c) head) in *.
    set (m1 := with_braces m (<[l := f]> (braces m))) in *.
    rewrite (bind_returns _ _ _ _ _ Hpush).
    assert (Hne : fs <> []) by (by destruct Hwf).
    specialize (IH m1 (Some l) ((l, f) :: fs) Hwf1 ltac:(cbn [length]; lia)).
    rewrite (closings_cons _ _ Hne) in IH. cbn [snd BraceStack.closing_brace f] in IH.
    destruct (closings_after _ _ ops _) as [cs|]; [| exact IH].
    destruct IH as (head' & m' & fs' & Hrun & Hwf' & Hcs & Hlast & Hh & Hs & Hheap).
    exists head', m', fs'. split; [exact Hrun|]. split; [exact Hwf'|]. split; [exact Hcs|].
    split; [rewrite Hlast; by destruct fs|]. split; [exact Hh|]. split; [exact Hs|].
    rewrite Hheap. cbn [fmap list_fmap fst]. apply heap_without_pushed. exact Hfresh.
  - cbn [closings_after run_brace_ops]. cbn [pushes] in Hlen.
    destruct fs as [|lf fs]; [by destruct Hwf|].
    destruct fs as [|lf' fs].
    + cbn. by rewrite (bind_assertion_failed _ _ _ _ (brace_stack_pop_root_wf _ m head lf Hwf)).
    + rewrite closings_cons by done.
      destruct (brace_stack_pop_wf fuel m head lf (lf' :: fs) Hwf) as (Hpop & Hwf1); [done|].
      rewrite (bind_returns _ _ _ _ _ Hpop).
      specialize (IH _ _ _ Hwf1 ltac:(cbn [length] in *; lia)).
      destruct (closings_after _ _ ops _) as [cs|]; [| exact IH].
      destruct IH as (head' & m' & fs' & Hrun & Hwf' & Hcs & Hlast & Hh & Hs & Hheap).
      exists head', m', fs'. split; [exact Hrun|]. split; [exact Hwf'|]. split; [exact Hcs|].
      split; [by rewrite Hlast|]. split; [exact Hh|]. split; [exact Hs|].
      rewrite Hheap. cbn [braces with_braces]. apply heap_without_popped.
Qed.

Lemma never_underflows_closings ops : forall cs,
  never_underflows (length cs) ops ->
  exists cs', closings_after BRACE_TABLE BACE_TABLE_MAX ops cs = Some cs' /\
              (length cs' + pops ops = length cs + pushes ops)%nat.
Proof.
  induction ops as [|[c|] ops IH]; intros cs Hnu.
  - exists cs. cbn. split; [done | lia].
  - cbn in *. destruct (IH (closing_for BRACE_TABLE BACE_TABLE_MAX c :: cs) Hnu) as (cs' & -> & Hn).
    exists cs'. split; [done|]. cbn [length] in Hn. lia.
  - cbn in *. destruct cs as [|c cs]; [done|]. cbn [length] in Hnu.
    destruct (IH cs Hnu) as (cs' & -> & Hn). exists cs'. split; [done|]. cbn [length]. lia.
Qed.

(** X7.  The brace stack behaves as a list of closing braces.  From a
    freshly created state, a run of pushes and pops on the heap ends as
    the same run on a list does: when the list run ends with [cs], the
    heap run returns a well-formed stack whose frames above the root
    hold exactly [cs], top first, over the zeroed root, and the top
    frame's depth is the length of [cs]; when the list run pops the empty
    list, the heap run fails the assertion of the pop. *)
Theorem brace_stack_is_a_list_stack fuel ops (m : memory) :
  Z.of_nat (pushes ops) <= SIZE_MAX ->
  match closings_after BRACE_TABLE BACE_TABLE_MAX ops [] with
  | Some cs =>
      exists head m' fs top,
        run_from_create BRACE_TABLE BACE_TABLE_MAX (S (S fuel)) ops m = (Returns head, m') /\
        brace_stack_wf m' head fs /\
        closings fs = cs /\
        snd <$> last fs = Some zero_brace /\
        load_brace head m' = (Returns top, m') /\
        BraceStack.depth top = Z.of_nat (length cs) /\
        (forall c cs', cs = c :: cs' -> BraceStack.closing_brace top = c)
  | None =>
      fst (run_from_create BRACE_TABLE BACE_TABLE_MAX (S (S fuel)) ops m) = AssertionFailed
  end.
Proof.
  intros Hlen.
  destruct (create_wf m) as (state & m0 & lb & lh & Hcreate & Hwf0 & _).
  destruct Hwf0 as (ls & s & -> & Hs & Hb & _).
  unfold run_from_create. rewrite (bind_returns _ _ _ _ _ Hcreate).
  rewrite (bind_returns _ _ _ _ _ (load_state_allocated _ _ _ Hs)).
  pose proof (run_brace_ops_closings fuel ops m0 (current_brace s) _ Hb
                ltac:(cbn [length]; lia)) as Hrun.
  change (closings [(lb, zero_brace)]) with (@nil Z) in Hrun.
  destruct (closings_after _ _ ops []) as [cs|]; [| exact Hrun].
  destruct Hrun as (head & m' & fs & Hrun & Hwf & Hcs & Hlast & _).
  pose proof Hwf as (Hne & Hc & Hok).
  destruct fs as [|[l top] fs]; [done|].
  pose proof Hc as (-> & Hl & _). pose proof Hok as (Hd & _). cbn [fst snd] in *.
  exists (Some l), m', ((l, top) :: fs), top.
  split; [exact Hrun|]. split; [exact Hwf|]. split; [exact Hcs|].
  split; [by rewrite Hlast|]. split; [by apply load_brace_allocated|]. split.
  - rewrite Hd, <- Hcs, length_closings. cbn [length]. lia.
  - intros c cs' E. rewrite <- Hcs in E. destruct fs as [|lf fs]; [discriminate|].
    rewrite closings_cons in E by done. by injection E.
Qed.

(** X8.  The brace stack does not leak.  From a freshly created state,
    after any run of pushes and pops that never pops the root, freeing
    the stack that is left puts the brace heap back as it was before
    Create: every frame allocated on the way has been freed, and no
    frame that was there before has been touched. *)
Theorem brace_frames_do_not_leak fuel ops (m : memory) :
  never_underflows 0 ops ->
  Z.of_nat (pushes ops) <= SIZE_MAX ->
  exists m',
    (b <~ run_from_create BRACE_TABLE BACE_TABLE_MAX (S (S fuel)) ops ;;
     brace_stack_free (S (S (pushes ops))) b) m = (Returns tt, m') /\
    braces m' = braces m.
Proof.
  intros Hnu Hlen.
  destruct (never_underflows_closings ops [] Hnu) as (cs & Hcs & Hn).
  pose proof (create_returns m) as Hcreate.
  pose proof (fresh_brace_unallocated m) as Hfresh.
  set (lb := fresh (dom (braces m))) in *.
  set (m0 := Memory _ _ _) in Hcreate.
  destruct (create_wf m) as (state' & m0' & lb' & lh & Hcreate' & Hwf0 & _).
  rewrite Hcreate in Hcreate'. injection Hcreate' as <- <-.
  destruct Hwf0 as (ls & s & Els & Hs & Hb & _).
  injection Els as Els. subst ls.
  assert (Elb : lb' = lb).
  { destruct Hb as (_ & (E & Hl & _) & _). cbn in E, Hs.
    rewrite lookup_insert_eq in Hs. injection Hs as <-.
    cbn in E. by injection E. }
  subst lb'.
  pose proof (run_brace_ops_closings fuel ops m0 (current_brace s) _ Hb
                ltac:(cbn [length]; lia)) as Hrun.
  change (closings [(lb, zero_brace)]) with (@nil Z) in Hrun. rewrite Hcs in Hrun.
  destruct Hrun as (head & m1 & fs & Hrun & Hwf & Hcs' & _ & _ & _ & Hheap).
  pose proof Hwf as (_ & Hc & _).
  eexists. split.
  - unfold run_from_create.
    erewrite bind_returns; [apply brace_stack_free_chain; [exact Hc|] |].
    + pose proof (length_closings fs) as Hlc. rewrite Hcs' in Hlc.
      destruct Hwf as (Hne & _). destruct fs; [done|]. cbn [length] in *. lia.
    + rewrite (bind_returns _ _ _ _ _ Hcreate).
      rewrite (bind_returns _ _ _ _ _ (load_state_allocated _ _ _ Hs)). exact Hrun.
  - cbn [braces with_braces]. rewrite Hheap. cbn [fmap list_fmap fst foldr braces m0].
    by apply delete_insert_id.
Qed.

End RunsAsLists.

Lemma brace_stack_is_a_list_stack_witness :
  Z.of_nat (pushes [Push 40; Push 91; Pop; Push 34]) <= SIZE_MAX /\
  exists head m' fs top,
    run_from_create example_table example_table_max 2 [Push 40; Push 91; Pop; Push 34]
      empty_memory = (Returns head, m') /\
    brace_stack_wf m' head fs /\
    closings fs = [34; 41] /\
    snd <$> last fs = Some zero_brace /\
    load_brace head m' = (Returns top, m') /\
    BraceStack.depth top = 2 /\
    (forall c cs', [34; 41] = c :: cs' -> BraceStack.closing_brace top = c).
Proof.
  assert (Hlen : Z.of_nat (pushes [Push 40; Push 91; Pop; Push 34]) <= SIZE_MAX)
    by (unfold SIZE_MAX; cbn; lia).
  split; [exact Hlen|].
  exact (brace_stack_is_a_list_stack example_table example_table_max 0
           [Push 40; Push 91; Pop; Push 34] empty_memory Hlen).
Defined.

Lemma brace_frames_do_not_leak_witness :
  never_underflows 0 [Push 40; Push 91; Pop; Push 34] /\
  exists m',
    (b <~ run_from_create example_table example_table_max 2 [Push 40; Push 91; Pop; Push 34] ;;
     brace_stack_free 5 b) example_memory = (Returns tt, m') /\
    braces m' = braces example_memory.
Proof.
  split; [exact I|].
  exact (brace_frames_do_not_leak example_table example_table_max 0
           [Push 40; Push 91; Pop; Push 34] example_memory I
           ltac:(unfold SIZE_MAX; cbn; lia)).
Defined.


(** ** Sessions side by side *)

Lemma chain_ext {F : Type} (next : F -> ptr) (heap heap' : gmap positive F) p fs :
  (forall l, l ∈ fs.*1 -> heap' !! l = heap !! l) ->
  chain next heap p fs -> chain next heap' p fs.
Proof.
  revert p. induction fs as [|[l f] fs IH]; intros p Hext; cbn; [done|].
  intros (-> & Hf & Hc). split; [done|]. split.
  - rewrite Hext; [done | cbn; left].
  - apply IH; [| done]. intros k Hk. apply Hext. cbn. by right.
Qed.

(** X10.  Create leaves the sessions that exist alone.  A state that is
    well formed before the call is well formed after it, with the same
    frames; the state the call returns is a different one, well formed,
    its two roots at addresses none of the old frames has. *)
Theorem create_keeps_other_sessions (m : memory) state bfs hfs :
  scanner_state_wf m state bfs hfs ->
  exists state' m' lb lh,
    tree_sitter_raku_external_scanner_create m = (Returns state', m') /\
    scanner_state_wf m' state bfs hfs /\
    scanner_state_wf m' state' [(lb, zero_brace)] [(lh, zero_heredoc)] /\
    state' <> state /\ (lb ∉ bfs.*1) /\ (lh ∉ hfs.*1).
Proof.
  intros (l & s & -> & Hs & (Hbne & Hbc & Hbok) & (Hhne & Hhc & Hhok) & Hroots).
  pose proof (fresh_brace_unallocated m) as Hfb.
  pose proof (fresh_heredoc_unallocated m) as Hfh.
  pose proof (fresh_state_unallocated m) as Hfs.
  eexists _, _, _, _. split; [apply create_returns|].
  split; [| split; [| split; [| split]]].
  - exists l, s. split; [done|]. split.
    + cbn. rewrite lookup_insert_ne; [done | congruence].
    + split; [| split; [| done]].
      * split; [done|]. split; [| done]. by apply chain_insert_unallocated.
      * split; [done|]. split; [| done]. by apply chain_insert_unallocated.
  - eexists _, _. split; [reflexivity|]. split; [cbn; apply lookup_insert_eq|].
    cbn. split; [| split; [| done]].
    + split; [done|]. split.
      * cbn. split; [done|]. split; [apply lookup_insert_eq | done].
      * cbn. unfold is_size_t, is_uint32, SIZE_MAX, UINT32_MAX. lia.
    + split; [done|]. split.
      * cbn. split; [done|]. split; [apply lookup_insert_eq | done].
      * cbn. unfold is_size_t, is_uint32, SIZE_MAX, UINT32_MAX.
        repeat split; try lia. constructor.
  - congruence.
  - intros Hin. destruct (chain_allocated _ _ _ _ _ Hbc Hin) as [? E]. congruence.
  - intros Hin. destruct (chain_allocated _ _ _ _ _ Hhc Hin) as [? E]. congruence.
Qed.

Lemma create_keeps_other_sessions_witness :
  scanner_state_wf example_memory (Some 1%positive)
    example_brace_frames example_heredoc_frames /\
  exists state' m' lb lh,
    tree_sitter_raku_external_scanner_create example_memory = (Returns state', m') /\
    scanner_state_wf m' (Some 1%positive) example_brace_frames example_heredoc_frames /\
    scanner_state_wf m' state' [(lb, zero_brace)] [(lh, zero_heredoc)] /\
    state' <> Some 1%positive /\
    (lb ∉ example_brace_frames.*1) /\ (lh ∉ example_heredoc_frames.*1).
Proof.
  split; [exact example_state_wf|].
  exact (create_keeps_other_sessions example_memory (Some 1%positive)
           example_brace_frames example_heredoc_frames example_state_wf).
Defined.

(** X11.  Pushes and pops on one brace stack leave every other session
    alone: a state that is well formed before the run, and whose brace
    frames are none of the stack's, is well formed after it, with the
    same frames. *)
Theorem run_keeps_other_sessions TABLE MAX fuel ops (m : memory) head fs
    state bfs hfs head' m' :
  brace_stack_wf m head fs ->
  Z.of_nat (length fs + pushes ops) <= SIZE_MAX + 1 ->
  scanner_state_wf m state bfs hfs ->
  (forall l, l ∈ bfs.*1 -> l ∉ fs.*1) ->
  run_brace_ops TABLE MAX (S (S fuel)) ops head m = (Returns head', m') ->
  scanner_state_wf m' state bfs hfs.
Proof.
  intros Hwf Hlen (l & s & -> & Hs & (Hbne & Hbc & Hbok) & (Hhne & Hhc & Hhok) & Hroots)
         Hdisj Hrun.
  pose proof (run_brace_ops_closings TABLE MAX fuel ops m head fs Hwf Hlen) as H.
  rewrite Hrun in H.
  destruct (closings_after TABLE MAX ops (closings fs)) as [cs|]; [| discriminate].
  destruct H as (head2 & m2 & fs' & E & _ & _ & _ & Hh & Hst & Hheap).
  injection E as <- <-.
  exists l, s. split; [done|]. split; [by rewrite Hst|].
  split; [| split; [| done]].
  - split; [done|]. split; [| done].
    apply (chain_ext _ (braces m)); [| exact Hbc].
    intros k Hk.
    destruct (chain_allocated _ _ _ _ _ Hbc Hk) as [g Hg].
    pose proof (f_equal (fun h => h !! k) Hheap) as Hk'. cbn beta in Hk'.
    rewrite !lookup_foldr_delete in Hk'.
    destruct (decide (k ∈ fs.*1)) as [Hin|_]; [by apply Hdisj in Hin|].
    destruct (decide (k ∈ fs'.*1)); [congruence | done].
  - split; [done|]. split; [| done]. unfold heredoc_chain. by rewrite Hh.
Qed.

Lemma two_sessions_first_stack_wf :
  brace_stack_wf two_sessions_memory (Some 3%positive) example_brace_frames.
Proof.
  split; [done|]. split.
  - repeat (split; [reflexivity|]). reflexivity.
  - cbn. unfold is_size_t, is_uint32, SIZE_MAX, UINT32_MAX. lia.
Qed.

Lemma two_sessions_second_state_wf :
  scanner_state_wf two_sessions_memory (Some 2%positive)
    [(4%positive, zero_brace)] [(3%positive, zero_heredoc)].
Proof.
  exists 2%positive, (State (Some 4%positive) (Some 3%positive)).
  split; [reflexivity|]. split; [reflexivity|].
  split; [| split; [| done]].
  - split; [done|]. split.
    + repeat (split; [reflexivity|]). reflexivity.
    + cbn. unfold is_size_t, is_uint32, SIZE_MAX, UINT32_MAX. lia.
  - split; [done|]. split.
    + repeat (split; [reflexivity|]). reflexivity.
    + cbn. unfold is_size_t, is_uint32, SIZE_MAX, UINT32_MAX.
      repeat split; try lia; constructor.
Qed.

Lemma run_keeps_other_sessions_witness :
  brace_stack_wf two_sessions_memory (Some 3%positive) example_brace_frames /\
  scanner_state_wf two_sessions_memory (Some 2%positive)
    [(4%positive, zero_brace)] [(3%positive, zero_heredoc)] /\
  exists head' m',
    run_brace_ops example_table example_table_max 2 [Pop; Push 60] (Some 3%positive)
      two_sessions_memory = (Returns head', m') /\
    scanner_state_wf m' (Some 2%positive)
      [(4%positive, zero_brace)] [(3%positive, zero_heredoc)].
Proof.
  split; [exact two_sessions_first_stack_wf|]. split; [exact two_sessions_second_state_wf|].
  destruct (run_brace_ops_wf example_table example_table_max 0 [Pop; Push 60]
              two_sessions_memory (Some 3%positive) example_brace_frames
              two_sessions_first_stack_wf I ltac:(unfold SIZE_MAX; cbn; lia))
    as (head' & m' & fs' & Hrun & _).
  exists head', m'. split; [exact Hrun|].
  refine (run_keeps_other_sessions example_table example_table_max 0 [Pop; Push 60]
            two_sessions_memory (Some 3%positive) example_brace_frames (Some 2%positive)
            _ _ head' m' two_sessions_first_stack_wf
            ltac:(unfold SIZE_MAX; cbn; lia) two_sessions_second_state_wf _ Hrun).
  intros k Hk. cbn in Hk. apply list_elem_of_singleton in Hk as ->.
  cbn. intros Hin. repeat (apply elem_of_cons in Hin as [Hin|Hin]; [discriminate Hin|]).
  by apply not_elem_of_nil in Hin.
Defined.

(** ** The size and the content of the encoding *)

(** X12.  The size of the encoding.  On a well-formed state the
    serialiser stores 16 bytes for the two counts, 4 per brace frame
    above the root, 12 per heredoc frame above the root and 4 per
    sentinel codepoint.  It returns that number when it is at most 1024;
    when it is larger the call runs into a store beyond the buffer. *)
Theorem serialize_size fuel (m : memory) state bfs hfs :
  scanner_state_wf m state bfs hfs ->
  (length bfs <= fuel)%nat -> (length hfs <= fuel)%nat ->
  let size :=
    16 + 4 * Z.of_nat (length (non_root bfs)) + 12 * Z.of_nat (length (non_root hfs)) +
    4 * Z.of_nat (length (concat (map (fun lf => HeredocStack.sentinel (snd lf))
                                      (non_root hfs)))) in
  (size <= 1024 -> fst (serialize fuel m state) = Returns size) /\
  (1024 < size -> fst (serialize fuel m state) = Undefined).
Proof.
  intros Hwf Hfb Hfh size.
  pose proof (encoded_size_formula bfs hfs) as Hsize. fold size in Hsize.
  split; intros H.
  - rewrite (serialize_fits fuel m state bfs hfs Hwf Hfb Hfh)
      by (unfold TREE_SITTER_SERIALIZATION_BUFFER_SIZE; lia).
    cbn [fst]. by rewrite Hsize.
  - destruct (serialize_overflows fuel m state bfs hfs Hwf Hfb Hfh)
      as (stored & rest & -> & _); [| done].
    unfold TREE_SITTER_SERIALIZATION_BUFFER_SIZE. lia.
Qed.

Lemma serialize_size_witness :
  scanner_state_wf example_memory (Some 1%positive)
    example_brace_frames example_heredoc_frames /\
  fst (serialize 3 example_memory (Some 1%positive)) = Returns 48.
Proof.
  split; [exact example_state_wf|].
  exact (proj1 (serialize_size 3 example_memory (Some 1%positive)
                  example_brace_frames example_heredoc_frames example_state_wf
                  ltac:(cbn; lia) ltac:(cbn; lia)) ltac:(cbn; lia)).
Defined.

Lemma non_root_map {A B : Type} (g : A -> B) (l : list A) :
  non_root (map g l) = map g (non_root l).
Proof.
  induction l as [|x [|y l] IH]; [done | done |].
  cbn [map]. rewrite !non_root_cons. cbn [map] in IH. by rewrite IH.
Qed.

Lemma brace_section_of_view fs :
  brace_section fs =
    le_bytes (sizeof size_t) (Z.of_nat (length (non_root (brace_view fs)))) ++
    concat (map (fun bf => le_bytes (sizeof uint32_t) (bf_closing_delimiter bf))
                (non_root (brace_view fs))).
Proof.
  unfold brace_section, brace_view. by rewrite non_root_map, length_map, map_map.
Qed.

Lemma heredoc_section_of_view fs :
  heredoc_frames_ok fs ->
  heredoc_section fs =
    le_bytes (sizeof size_t) (Z.of_nat (length (non_root (heredoc_view fs)))) ++
    concat (map (fun hf => le_bytes (sizeof uint32_t) (hf_interp_flags hf) ++
                           le_bytes (sizeof size_t) (Z.of_nat (length (hf_sentinel hf))) ++
                           concat (map (le_bytes (sizeof uint32_t)) (hf_sentinel hf)))
                (non_root (heredoc_view fs))).
Proof.
  intros Hok. unfold heredoc_section, heredoc_view.
  rewrite non_root_map, length_map, map_map. f_equal. f_equal.
  apply heredoc_frames_ok_records, Forall_non_root in Hok.
  induction Hok as [|lf l (_ & Hsl & _) _ IH]; [done|].
  cbn [map]. rewrite IH. f_equal. unfold heredoc_record. cbn [hf_interp_flags hf_sentinel].
  by rewrite Hsl.
Qed.

(** X13.  The encoding tells states apart, and nothing else.  For two
    well-formed states that fit the buffer, in whatever memories and at
    whatever addresses, the serialiser stores the same bytes exactly when
    the two pairs of stacks hold the same depths, closing braces,
    sentinels and flags words in the same order. *)
Theorem serialize_same_bytes_iff_same_stacks
    fuel1 (m1 : memory) state1 bfs1 hfs1 fuel2 (m2 : memory) state2 bfs2 hfs2 :
  scanner_state_wf m1 state1 bfs1 hfs1 ->
  (length bfs1 <= fuel1)%nat -> (length hfs1 <= fuel1)%nat ->
  encoded_size bfs1 hfs1 <= TREE_SITTER_SERIALIZATION_BUFFER_SIZE ->
  scanner_state_wf m2 state2 bfs2 hfs2 ->
  (length bfs2 <= fuel2)%nat -> (length hfs2 <= fuel2)%nat ->
  encoded_size bfs2 hfs2 <= TREE_SITTER_SERIALIZATION_BUFFER_SIZE ->
  (snd (serialize fuel1 m1 state1) = snd (serialize fuel2 m2 state2) <->
   brace_view bfs1 = brace_view bfs2 /\ heredoc_view hfs1 = heredoc_view hfs2).
Proof.
  intros Hwf1 Hb1 Hh1 Hfit1 Hwf2 Hb2 Hh2 Hfit2.
  rewrite (serialize_fits fuel1 m1 state1 bfs1 hfs1 Hwf1 Hb1 Hh1 Hfit1).
  rewrite (serialize_fits fuel2 m2 state2 bfs2 hfs2 Hwf2 Hb2 Hh2 Hfit2).
  cbn [snd].
  destruct Hwf1 as (_ & _ & _ & _ & (_ & _ & Hok1) & (_ & _ & Hhok1) & Hr1).
  destruct Hwf2 as (_ & _ & _ & _ & (_ & _ & Hok2) & (_ & _ & Hhok2) & Hr2).
  split.
  - intros E.
    pose proof (deserialize_sections bfs1 hfs1 Hok1 Hhok1 Hr1) as D1.
    pose proof (deserialize_sections bfs2 hfs2 Hok2 Hhok2 Hr2) as D2.
    rewrite E, D2 in D1. injection D1 as -> ->. done.
  - intros [Eb Eh].
    rewrite !brace_section_of_view, !heredoc_section_of_view by done.
    by rewrite Eb, Eh.
Qed.

Lemma serialize_same_bytes_iff_same_stacks_witness :
  scanner_state_wf example_memory (Some 1%positive)
    example_brace_frames example_heredoc_frames /\
  scanner_state_wf created_memory created_state
    [(1%positive, zero_brace)] [(1%positive, zero_heredoc)] /\
  snd (serialize 3 example_memory (Some 1%positive))
    <> snd (serialize 1 created_memory created_state).
Proof.
  split; [exact example_state_wf|]. split; [exact created_state_wf|].
  intros E.
  destruct (proj1 (serialize_same_bytes_iff_same_stacks
                     3 example_memory (Some 1%positive)
                     example_brace_frames example_heredoc_frames
                     1 created_memory created_state
                     [(1%positive, zero_brace)] [(1%positive, zero_heredoc)]
                     example_state_wf ltac:(cbn; lia) ltac:(cbn; lia)
                     ltac:(vm_compute; discriminate)
                     created_state_wf ltac:(cbn; lia) ltac:(cbn; lia)
                     ltac:(vm_compute; discriminate)) E) as [Eb _].
  discriminate Eb.
Defined.

(** ** The macros, writing and reading *)

(** X14.  [BUF_READ] reads back what [BUF_WRITE] has written: the
    value, reduced to the width of the type, and the pointer is then past
    it.  [BUF_WRITE] has written when the value ends within the buffer;
    otherwise the store is undefined. *)
Theorem BUF_READ_inverts_BUF_WRITE (type : ctype) (v : Z) (buf rest : list Z) :
  (Z.of_nat (length buf + sizeof type) <= TREE_SITTER_SERIALIZATION_BUFFER_SIZE ->
   exists w,
     BUF_WRITE type v buf = (Returns tt, buf ++ w) /\
     length w = sizeof type /\
     BUF_READ type (w ++ rest) = (Returns (v mod 256 ^ Z.of_nat (sizeof type)), rest)) /\
  (TREE_SITTER_SERIALIZATION_BUFFER_SIZE < Z.of_nat (length buf + sizeof type) ->
   BUF_WRITE type v buf = (Undefined, buf)).
Proof.
  unfold BUF_WRITE.
  destruct (Z.leb_spec (Z.of_nat (length buf + sizeof type))
                       TREE_SITTER_SERIALIZATION_BUFFER_SIZE) as [Hfit | Hover].
  - split; [| lia]. intros _.
    exists (le_bytes (sizeof type) v). split; [reflexivity|].
    split; [apply length_le_bytes|].
    unfold BUF_READ. rewrite length_app, length_le_bytes.
    replace (sizeof type <=? sizeof type + length rest)%nat with true
      by (symmetry; apply Nat.leb_le; lia).
    by rewrite take_le_bytes_app, drop_le_bytes_app, le_value_le_bytes.
  - split; [lia | done].
Qed.

Lemma BUF_READ_inverts_BUF_WRITE_witness :
  BUF_WRITE uint32_t 41 [1; 0; 0; 0; 0; 0; 0; 0] =
    (Returns tt, [1; 0; 0; 0; 0; 0; 0; 0] ++ [41; 0; 0; 0]) /\
  BUF_READ uint32_t ([41; 0; 0; 0] ++ [7]) = (Returns 41, [7]).
Proof.
  destruct (proj1 (BUF_READ_inverts_BUF_WRITE uint32_t 41 [1; 0; 0; 0; 0; 0; 0; 0] [7])
              ltac:(vm_compute; discriminate)) as (w & Hwrite & _ & Hread).
  assert (Hw : w = [41; 0; 0; 0]).
  { change (BUF_WRITE uint32_t 41 [1; 0; 0; 0; 0; 0; 0; 0])
      with (Returns tt, [1; 0; 0; 0; 0; 0; 0; 0] ++ [41; 0; 0; 0]) in Hwrite.
    injection Hwrite as Hwrite. by symmetry. }
  subst w. split; [reflexivity | exact Hread].
Defined.

(** X15.  [BUF_READ_ARRAY] reads back the elements [BUF_WRITE_ARRAY] has
    written, and leaves the pointer at the first of them, not after the
    last: the bytes of all the elements are still ahead.
    [BUF_WRITE_ARRAY] has written them when the length and the elements
    end within the buffer. *)
Theorem BUF_READ_ARRAY_after_BUF_WRITE_ARRAY (xs buf rest : list Z) :
  Forall is_uint32 xs ->
  is_size_t (Z.of_nat (length xs)) ->
  Z.of_nat (length buf) + 8 + 4 * Z.of_nat (length xs)
    <= TREE_SITTER_SERIALIZATION_BUFFER_SIZE ->
  exists w,
    BUF_WRITE_ARRAY uint32_t (Z.of_nat (length xs)) xs buf = (Returns tt, buf ++ w) /\
    BUF_READ_ARRAY uint32_t (w ++ rest) =
      (Returns xs, concat (map (le_bytes (sizeof uint32_t)) xs) ++ rest) /\
    w = le_bytes (sizeof size_t) (Z.of_nat (length xs)) ++
        concat (map (le_bytes (sizeof uint32_t)) xs).
Proof.
  intros Hxs Hlen Hfit. eexists. split; [| split; [| reflexivity]].
  - apply (stores_BUF_WRITE_ARRAY xs buf); [lia|].
    rewrite length_app, length_le_bytes, length_concat_le_bytes. cbn [sizeof]. lia.
  - unfold BUF_READ_ARRAY. rewrite <- app_assoc.
    rewrite length_app, length_le_bytes.
    replace (sizeof size_t <=? sizeof size_t + _)%nat with true
      by (symmetry; apply Nat.leb_le; lia).
    rewrite take_le_bytes_app, drop_le_bytes_app, le_value_le_bytes_size_t by done.
    rewrite length_app, length_concat_le_bytes.
    replace (Z.of_nat (length xs) * Z.of_nat (sizeof uint32_t)
             <=? Z.of_nat (length xs * sizeof uint32_t + length rest)) with true
      by (symmetry; apply Z.leb_le; lia).
    by rewrite Nat2Z.id, decode_array_concat.
Qed.

Lemma BUF_READ_ARRAY_after_BUF_WRITE_ARRAY_witness :
  Forall is_uint32 [69; 78; 68] /\
  BUF_READ_ARRAY uint32_t
    (([3; 0; 0; 0; 0; 0; 0; 0] ++ [69; 0; 0; 0; 78; 0; 0; 0; 68; 0; 0; 0]) ++ [7])
    = (Returns [69; 78; 68], [69; 0; 0; 0; 78; 0; 0; 0; 68; 0; 0; 0] ++ [7]).
Proof.
  assert (Hxs : Forall is_uint32 [69; 78; 68])
    by (repeat constructor; unfold UINT32_MAX; lia).
  split; [exact Hxs|].
  destruct (BUF_READ_ARRAY_after_BUF_WRITE_ARRAY [69; 78; 68] [] [7] Hxs
              ltac:(unfold is_size_t, SIZE_MAX; cbn; lia)
              ltac:(vm_compute; discriminate)) as (w & _ & Hread & ->).
  exact Hread.
Defined.
